(** * duckduckno-ai: the chat-completion bridge of [src/index.ts]

    A shallow embedding of the request handler of [POST /v1/chat/completions]:
    the request translation, the session-token acquisition, the streaming
    relay ([streamSSE] callback) and the non-streaming aggregation.

    JavaScript strings are sequences of UTF-16 code units, response bodies are
    sequences of bytes delivered in chunks.  The platform functions the
    handler calls ([String.prototype.split], [substring], [TextDecoder],
    [Response.text], [JSON.parse], string concatenation) are embedded from
    their standards (ECMA-262, WHATWG Encoding); wall-clock fields
    ([created: Date.now()]) and logging are left out of the model. *)

From Stdlib Require Import Strings.String Strings.Ascii Strings.Byte.
From Stdlib Require Import ZArith List Bool Lia.
Import ListNotations.
Open Scope Z_scope.
Set Warnings "-register-all".

(* ================================================================== *)
(** ** JavaScript strings *)

Module JsString.

(** A string value: its UTF-16 code units, each in [0, 65535]. *)
Definition jsstring := list Z.

(** A literal of the source, all of whose characters are ASCII. *)
Definition lit (s : string) : jsstring :=
  map (fun a => Z.of_N (N_of_ascii a)) (list_ascii_of_string s).

(** [a === b] on strings. *)
Fixpoint eqb (a b : jsstring) : bool :=
  match a, b with
  | [], [] => true
  | x :: a', y :: b' => (x =? y) && eqb a' b'
  | _, _ => false
  end.

(** [s.substring(n)] for [0 <= n]: the code units from index [n] on, the
    empty string when [s] is shorter. *)
Definition substring (n : nat) (s : jsstring) : jsstring := skipn n s.

(** [sep] occurs in [s] at its first position. *)
Fixpoint starts_with (sep s : jsstring) : bool :=
  match sep, s with
  | [], _ => true
  | x :: sep', y :: s' => (x =? y) && starts_with sep' s'
  | _ :: _, [] => false
  end.

(** The scan of [String.prototype.split] for a non-empty separator: [cur]
    holds (reversed) the piece being collected, [skip] the number of code
    units of a matched separator still to pass over.  Matches are found from
    the left and do not overlap. *)
Fixpoint split_go (sep : jsstring) (skip : nat) (cur s : jsstring)
  : list jsstring :=
  match s with
  | [] => [rev cur]
  | c :: s' =>
      match skip with
      | S k => split_go sep k cur s'
      | O =>
          if starts_with sep s
          then rev cur :: split_go sep (pred (length sep)) [] s'
          else split_go sep O (c :: cur) s'
      end
  end.

(** [s.split(sep)] for a non-empty [sep]. *)
Definition split (sep s : jsstring) : list jsstring := split_go sep O [] s.

(** [parts.pop() || ''] and what [pop] leaves in [parts]. *)
Definition pop (parts : list jsstring) : list jsstring * jsstring :=
  (removelast parts, last parts []).

Definition LF : Z := 10.

(** No line feed among the code units of [s]. *)
Definition no_lf (s : jsstring) : Prop := ~ In LF s.

End JsString.
Import JsString.

(* ================================================================== *)
(** ** UTF-8 decoding (WHATWG Encoding) *)

Module Utf8.

Definition byte_val (b : byte) : Z := Z.of_N (Byte.to_N b).

(** The state of the standard's UTF-8 decoder. *)
Record decoder := {
  code_point : Z;
  bytes_seen : Z;
  bytes_needed : Z;
  lower_boundary : Z;
  upper_boundary : Z
}.

Definition fresh : decoder :=
  {| code_point := 0; bytes_seen := 0; bytes_needed := 0;
     lower_boundary := 0x80; upper_boundary := 0xBF |}.

Definition REPLACEMENT : Z := 0xFFFD.
Definition BOM : Z := 0xFEFF.

(** The decoder's handler on a byte when no sequence is open. *)
Definition lead (b : Z) : decoder * list Z :=
  if b <=? 0x7F then (fresh, [b])
  else if (0xC2 <=? b) && (b <=? 0xDF) then
    ({| code_point := Z.land b 0x1F; bytes_seen := 0; bytes_needed := 1;
        lower_boundary := 0x80; upper_boundary := 0xBF |}, [])
  else if (0xE0 <=? b) && (b <=? 0xEF) then
    ({| code_point := Z.land b 0xF; bytes_seen := 0; bytes_needed := 2;
        lower_boundary := if b =? 0xE0 then 0xA0 else 0x80;
        upper_boundary := if b =? 0xED then 0x9F else 0xBF |}, [])
  else if (0xF0 <=? b) && (b <=? 0xF4) then
    ({| code_point := Z.land b 0x7; bytes_seen := 0; bytes_needed := 3;
        lower_boundary := if b =? 0xF0 then 0x90 else 0x80;
        upper_boundary := if b =? 0xF4 then 0x8F else 0xBF |}, [])
  else (fresh, [REPLACEMENT]).

(** The handler on one byte: the new state and the code points it emits.  A
    byte outside the expected range ends the open sequence with U+FFFD and is
    then handled again as the start of a sequence. *)
Definition step (d : decoder) (b : Z) : decoder * list Z :=
  if bytes_needed d =? 0 then lead b
  else if negb ((lower_boundary d <=? b) && (b <=? upper_boundary d)) then
    let (d', out) := lead b in (d', REPLACEMENT :: out)
  else
    let cp := Z.lor (Z.shiftl (code_point d) 6) (Z.land b 0x3F) in
    if bytes_seen d + 1 =? bytes_needed d then (fresh, [cp])
    else ({| code_point := cp; bytes_seen := bytes_seen d + 1;
             bytes_needed := bytes_needed d;
             lower_boundary := 0x80; upper_boundary := 0xBF |}, []).

(** The handler at end-of-queue. *)
Definition flush (d : decoder) : list Z :=
  if bytes_needed d =? 0 then [] else [REPLACEMENT].

Fixpoint run (d : decoder) (bytes : list byte) : decoder * list Z :=
  match bytes with
  | [] => (d, [])
  | b :: rest =>
      let (d1, out1) := step d (byte_val b) in
      let (d2, out2) := run d1 rest in
      (d2, out1 ++ out2)
  end.

(** A code point as UTF-16 code units. *)
Definition code_units (cp : Z) : jsstring :=
  if cp <? 0x10000 then [cp]
  else [0xD800 + Z.shiftr (cp - 0x10000) 10;
        0xDC00 + Z.land (cp - 0x10000) 0x3FF].

(** [new TextDecoder()]: UTF-8, replacement error mode, [ignoreBOM] false. *)
Record TextDecoder := { utf8 : decoder; BOM_seen : bool }.

Definition new_TextDecoder : TextDecoder :=
  {| utf8 := fresh; BOM_seen := false |}.

(** Serialising the decoded code points: the first one of the stream is
    dropped when it is U+FEFF. *)
Fixpoint serialize (bom_seen : bool) (items : list Z) : bool * jsstring :=
  match items with
  | [] => (bom_seen, [])
  | cp :: rest =>
      if negb bom_seen && (cp =? BOM) then serialize true rest
      else let (b, s) := serialize true rest in (b, code_units cp ++ s)
  end.

(** [decoder.decode(value, {stream: true})]: nothing is flushed, the state
    is kept for the next call. *)
Definition decode (td : TextDecoder) (value : list byte)
  : TextDecoder * jsstring :=
  let (d, items) := run (utf8 td) value in
  let (b, s) := serialize (BOM_seen td) items in
  ({| utf8 := d; BOM_seen := b |}, s).

(** The standard's "UTF-8 decode", which [Response.text()] applies to the
    whole body: a leading byte order mark is removed, the end is flushed. *)
Definition strip_bom (bytes : list byte) : list byte :=
  match bytes with
  | xef :: xbb :: xbf :: rest => rest
  | _ => bytes
  end.

Definition utf8_decode (bytes : list byte) : jsstring :=
  let (d, items) := run fresh (strip_bom bytes) in
  flat_map code_units (items ++ flush d).

End Utf8.

(* ================================================================== *)
(** ** JSON values, [JSON.parse] and conversion to string *)

Module Json.

(** A number as the text writes it: sign, integer digits, fraction digits
    and exponent. *)
Record numeral := {
  negative : bool;
  int_digits : jsstring;
  frac_digits : jsstring;
  exp_negative : bool;
  exp_digits : jsstring
}.

(** A Number value other than NaN: a binary64, finite with the value
    [mantissa * 2 ^ exponent] and its sign, or an infinity.  A finite value
    is kept normalised: [0 <= mantissa < 2 ^ 53] and
    [-1074 <= exponent <= 971], with [2 ^ 52 <= mantissa] unless the exponent
    is [-1074]; a zero has the exponent [-1074]. *)
Inductive number :=
| Finite (neg : bool) (mantissa exponent : Z)
| Infinity (neg : bool).

(** The result of [JSON.parse].  An object keeps its members as written;
    reading a property takes the last member of that name. *)
Inductive value :=
| JNull
| JBool (b : bool)
| JNum (n : number)
| JStr (s : jsstring)
| JArr (elements : list value)
| JObj (members : list (jsstring * value)).

Inductive token :=
| TLBrace | TRBrace | TLBracket | TRBracket | TColon | TComma
| TString (s : jsstring) | TNumber (n : number)
| TTrue | TFalse | TNull.

Definition ch (a : ascii) : Z := Z.of_N (N_of_ascii a).
Definition is_char (c : Z) (a : ascii) : bool := c =? ch a.

(** The quotation mark. *)
Definition QUOTE : Z := 34.

Definition is_digit (c : Z) : bool := (ch "0" <=? c) && (c <=? ch "9").
Definition is_whitespace (c : Z) : bool :=
  (c =? 9) || (c =? 10) || (c =? 13) || (c =? 32).

Definition hex_value (c : Z) : option Z :=
  if is_digit c then Some (c - ch "0")
  else if (ch "a" <=? c) && (c <=? ch "f") then Some (c - ch "a" + 10)
  else if (ch "A" <=? c) && (c <=? ch "F") then Some (c - ch "A" + 10)
  else None.

(** Where the scanner is inside a number of the JSON grammar: an optional
    minus sign, then a single zero or a non-zero digit followed by digits,
    then optionally a point and at least one digit, then optionally [e] or
    [E], an optional sign and at least one digit. *)
Inductive num_state :=
| NMinus | NZero | NInt | NDot | NFrac | NExpMark | NExpSign | NExp.

(** The scanner's state between two code units; pieces being collected are
    held reversed. *)
Inductive mode :=
| Idle
| InString (acc : jsstring)
| InEscape (acc : jsstring)
| InHex (acc : jsstring) (remaining : nat) (v : Z)
| InNumber (st : num_state) (n : numeral)
| InLiteral (rest : jsstring) (t : token).

Definition empty_number (neg : bool) : numeral :=
  {| negative := neg; int_digits := []; frac_digits := [];
     exp_negative := false; exp_digits := [] |}.

Definition add_int (n : numeral) (c : Z) : numeral :=
  {| negative := negative n; int_digits := c :: int_digits n;
     frac_digits := frac_digits n;
     exp_negative := exp_negative n; exp_digits := exp_digits n |}.

Definition add_frac (n : numeral) (c : Z) : numeral :=
  {| negative := negative n; int_digits := int_digits n;
     frac_digits := c :: frac_digits n;
     exp_negative := exp_negative n; exp_digits := exp_digits n |}.

Definition add_exp (n : numeral) (c : Z) : numeral :=
  {| negative := negative n; int_digits := int_digits n;
     frac_digits := frac_digits n;
     exp_negative := exp_negative n; exp_digits := c :: exp_digits n |}.

Definition set_exp_negative (n : numeral) : numeral :=
  {| negative := negative n; int_digits := int_digits n;
     frac_digits := frac_digits n;
     exp_negative := true; exp_digits := exp_digits n |}.

Fixpoint drop_zeros (ds : jsstring) : jsstring :=
  match ds with
  | d :: rest => if is_char d "0" then drop_zeros rest else ds
  | [] => []
  end.

Definition digits_value (ds : jsstring) : Z :=
  fold_left (fun acc d => acc * 10 + (d - ch "0")) ds 0.

(** [num / den / 2 ^ e] as a quotient, a remainder and its divisor. *)
Definition scaled (num den e : Z) : Z * Z * Z :=
  if 0 <=? e then
    let d := den * 2 ^ e in (num / d, num mod d, d)
  else
    let n := num * 2 ^ (- e) in (n / den, n mod den, den).

(** The binary64 nearest to [num / den], for [0 < num] and [0 < den], ties
    to the even mantissa: the exponent is chosen so that the mantissa has 53
    bits, or is [-1074] for a subnormal value; a value that rounds beyond
    the largest finite one is an infinity. *)
Definition round_ratio (neg : bool) (num den : Z) : number :=
  let e1 := Z.log2 num - Z.log2 den - 52 in
  let '(q1, _, _) := scaled num den e1 in
  let e2 := if q1 <? 2 ^ 52 then e1 - 1 else e1 in
  let e := Z.max e2 (-1074) in
  let '(q, r, d) := scaled num den e in
  let up := (d <? 2 * r) || ((d =? 2 * r) && Z.odd q) in
  let m := if up then q + 1 else q in
  let '(m', e') := if m =? 2 ^ 53 then (2 ^ 52, e + 1) else (m, e) in
  if 971 <? e' then Infinity neg else Finite neg m' e'.

(** [digits * 10 ^ e10] rounded to a Number value. *)
Definition round_decimal (neg : bool) (digits e10 : Z) : number :=
  if 0 <=? e10 then round_ratio neg (digits * 10 ^ e10) 1
  else round_ratio neg digits (10 ^ (- e10)).

(** The Number value of a numeral, its digits in reading order.  A numeral
    with [nd] significant digits before the position [e10] is below
    [10 ^ (nd + e10)] and at least [10 ^ (nd + e10 - 1)]: beyond 400 it
    rounds to an infinity, below -400 to zero. *)
Definition to_number (n : numeral) : number :=
  let written := int_digits n ++ frac_digits n in
  let digits := digits_value written in
  let e10 :=
    (if exp_negative n then - digits_value (exp_digits n)
     else digits_value (exp_digits n))
    - Z.of_nat (length (frac_digits n)) in
  let nd := Z.of_nat (length (drop_zeros written)) in
  if digits =? 0 then Finite (negative n) 0 (-1074)
  else if 400 <? nd + e10 then Infinity (negative n)
  else if nd + e10 <? -400 then Finite (negative n) 0 (-1074)
  else round_decimal (negative n) digits e10.

(** The digits were collected reversed. *)
Definition finish_number (n : numeral) : number :=
  to_number
    {| negative := negative n; int_digits := rev (int_digits n);
       frac_digits := rev (frac_digits n);
       exp_negative := exp_negative n; exp_digits := rev (exp_digits n) |}.

(** A code unit met between tokens. *)
Definition idle_step (c : Z) : option (list token * mode) :=
  if is_whitespace c then Some ([], Idle)
  else if is_char c "{" then Some ([TLBrace], Idle)
  else if is_char c "}" then Some ([TRBrace], Idle)
  else if is_char c "[" then Some ([TLBracket], Idle)
  else if is_char c "]" then Some ([TRBracket], Idle)
  else if is_char c ":" then Some ([TColon], Idle)
  else if is_char c "," then Some ([TComma], Idle)
  else if (c =? QUOTE) then Some ([], InString [])
  else if is_char c "-" then Some ([], InNumber NMinus (empty_number true))
  else if is_char c "0" then
    Some ([], InNumber NZero (add_int (empty_number false) c))
  else if is_digit c then
    Some ([], InNumber NInt (add_int (empty_number false) c))
  else if is_char c "t" then Some ([], InLiteral (lit "rue") TTrue)
  else if is_char c "f" then Some ([], InLiteral (lit "alse") TFalse)
  else if is_char c "n" then Some ([], InLiteral (lit "ull") TNull)
  else None.

(** The number is complete and [c] starts what follows it. *)
Definition end_number (n : numeral) (c : Z) : option (list token * mode) :=
  match idle_step c with
  | Some (toks, m) => Some (TNumber (finish_number n) :: toks, m)
  | None => None
  end.

Definition is_exp_mark (c : Z) : bool := is_char c "e" || is_char c "E".

Definition number_step (st : num_state) (n : numeral) (c : Z)
  : option (list token * mode) :=
  match st with
  | NMinus =>
      if is_char c "0" then Some ([], InNumber NZero (add_int n c))
      else if is_digit c then Some ([], InNumber NInt (add_int n c))
      else None
  | NZero =>
      if is_char c "." then Some ([], InNumber NDot n)
      else if is_exp_mark c then Some ([], InNumber NExpMark n)
      else end_number n c
  | NInt =>
      if is_digit c then Some ([], InNumber NInt (add_int n c))
      else if is_char c "." then Some ([], InNumber NDot n)
      else if is_exp_mark c then Some ([], InNumber NExpMark n)
      else end_number n c
  | NDot =>
      if is_digit c then Some ([], InNumber NFrac (add_frac n c)) else None
  | NFrac =>
      if is_digit c then Some ([], InNumber NFrac (add_frac n c))
      else if is_exp_mark c then Some ([], InNumber NExpMark n)
      else end_number n c
  | NExpMark =>
      if is_char c "+" then Some ([], InNumber NExpSign n)
      else if is_char c "-" then
        Some ([], InNumber NExpSign (set_exp_negative n))
      else if is_digit c then Some ([], InNumber NExp (add_exp n c))
      else None
  | NExpSign =>
      if is_digit c then Some ([], InNumber NExp (add_exp n c)) else None
  | NExp =>
      if is_digit c then Some ([], InNumber NExp (add_exp n c))
      else end_number n c
  end.

Definition escape_step (acc : jsstring) (c : Z) : option (list token * mode) :=
  if (c =? QUOTE) || is_char c "\" || is_char c "/" then
    Some ([], InString (c :: acc))
  else if is_char c "b" then Some ([], InString (8 :: acc))
  else if is_char c "f" then Some ([], InString (12 :: acc))
  else if is_char c "n" then Some ([], InString (10 :: acc))
  else if is_char c "r" then Some ([], InString (13 :: acc))
  else if is_char c "t" then Some ([], InString (9 :: acc))
  else if is_char c "u" then Some ([], InHex acc 4 0)
  else None.

(** One code unit of the text; [None] is a [SyntaxError]. *)
Definition scan_step (m : mode) (c : Z) : option (list token * mode) :=
  match m with
  | Idle => idle_step c
  | InString acc =>
      if (c =? QUOTE) then Some ([TString (rev acc)], Idle)
      else if is_char c "\" then Some ([], InEscape acc)
      else if c <? 0x20 then None
      else Some ([], InString (c :: acc))
  | InEscape acc => escape_step acc c
  | InHex acc remaining v =>
      match hex_value c, remaining with
      | Some h, S O => Some ([], InString ((v * 16 + h) :: acc))
      | Some h, S k => Some ([], InHex acc k (v * 16 + h))
      | _, _ => None
      end
  | InNumber st n => number_step st n c
  | InLiteral rest t =>
      match rest with
      | [x] => if c =? x then Some ([t], Idle) else None
      | x :: rest' => if c =? x then Some ([], InLiteral rest' t) else None
      | [] => None
      end
  end.

(** The end of the text. *)
Definition scan_end (m : mode) : option (list token) :=
  match m with
  | Idle => Some []
  | InNumber NZero n | InNumber NInt n | InNumber NFrac n | InNumber NExp n =>
      Some [TNumber (finish_number n)]
  | _ => None
  end.

Fixpoint scan (m : mode) (s : jsstring) : option (list token) :=
  match s with
  | [] => scan_end m
  | c :: s' =>
      match scan_step m c with
      | Some (toks, m') =>
          match scan m' s' with
          | Some rest => Some (toks ++ rest)
          | None => None
          end
      | None => None
      end
  end.

(** An open array or object; elements and members are held reversed, [key]
    is the name of the member being read. *)
Inductive frame :=
| FArray (elements : list value)
| FObject (members : list (jsstring * value)) (key : jsstring).

(** What the grammar allows next. *)
Inductive expect :=
| XValue          (* a value *)
| XFirstElement   (* after [[]: a value or []] *)
| XFirstKey       (* after [{]: a member name or [}] *)
| XKey            (* after [,] in an object: a member name *)
| XColon
| XAfter          (* after a value in an array or object: [,] or its end *)
| XEnd (v : value). (* the text's value is complete *)

Definition pstate := (expect * list frame)%type.

(** A value is complete: it is the text's value, or joins the open array or
    object. *)
Definition complete (v : value) (stack : list frame) : pstate :=
  match stack with
  | [] => (XEnd v, [])
  | FArray es :: st => (XAfter, FArray (v :: es) :: st)
  | FObject ms k :: st => (XAfter, FObject ((k, v) :: ms) k :: st)
  end.

Definition value_start (t : token) (stack : list frame) : option pstate :=
  match t with
  | TNull => Some (complete JNull stack)
  | TTrue => Some (complete (JBool true) stack)
  | TFalse => Some (complete (JBool false) stack)
  | TNumber n => Some (complete (JNum n) stack)
  | TString s => Some (complete (JStr s) stack)
  | TLBracket => Some (XFirstElement, FArray [] :: stack)
  | TLBrace => Some (XFirstKey, FObject [] [] :: stack)
  | _ => None
  end.

Definition member_name (t : token) (stack : list frame) : option pstate :=
  match t, stack with
  | TString k, FObject ms _ :: st => Some (XColon, FObject ms k :: st)
  | _, _ => None
  end.

Definition parse_step (p : pstate) (t : token) : option pstate :=
  let (x, stack) := p in
  match x with
  | XValue => value_start t stack
  | XFirstElement =>
      match t, stack with
      | TRBracket, FArray _ :: st => Some (complete (JArr []) st)
      | _, _ => value_start t stack
      end
  | XFirstKey =>
      match t, stack with
      | TRBrace, FObject _ _ :: st => Some (complete (JObj []) st)
      | _, _ => member_name t stack
      end
  | XKey => member_name t stack
  | XColon => match t with TColon => Some (XValue, stack) | _ => None end
  | XAfter =>
      match t, stack with
      | TComma, FArray _ :: _ => Some (XValue, stack)
      | TRBracket, FArray es :: st => Some (complete (JArr (rev es)) st)
      | TComma, FObject _ _ :: _ => Some (XKey, stack)
      | TRBrace, FObject ms _ :: st => Some (complete (JObj (rev ms)) st)
      | _, _ => None
      end
  | XEnd _ => None
  end.

Fixpoint parse_tokens (p : pstate) (toks : list token) : option value :=
  match toks with
  | [] => match p with (XEnd v, _) => Some v | _ => None end
  | t :: toks' =>
      match parse_step p t with
      | Some p' => parse_tokens p' toks'
      | None => None
      end
  end.

(** [JSON.parse(text)]; [None] when it throws a [SyntaxError]. *)
Definition JSON_parse (text : jsstring) : option value :=
  match scan Idle text with
  | Some toks => parse_tokens (XValue, []) toks
  | None => None
  end.

(** *** Reading a property *)

Fixpoint lookup (name : jsstring) (ms : list (jsstring * value))
  : option value :=
  match ms with
  | [] => None
  | (k, v) :: rest =>
      match lookup name rest with
      | Some v' => Some v'
      | None => if JsString.eqb k name then Some v else None
      end
  end.

(** [v[name]] on a parsed value, for a [name] that is neither an array index
    nor a property of the built-in prototypes (the handler reads ["role"] and
    ["message"]).  The outer [None] is the [TypeError] of reading a property
    of [null], the inner [None] is [undefined]. *)
Definition get (v : value) (name : jsstring) : option (option value) :=
  match v with
  | JNull => None
  | JObj ms => Some (lookup name ms)
  | _ => Some None
  end.

(** *** Conversion to a string, as string concatenation applies it *)

Fixpoint uint_units (u : Decimal.uint) : jsstring :=
  match u with
  | Decimal.Nil => []
  | Decimal.D0 u' => ch "0" :: uint_units u'
  | Decimal.D1 u' => ch "1" :: uint_units u'
  | Decimal.D2 u' => ch "2" :: uint_units u'
  | Decimal.D3 u' => ch "3" :: uint_units u'
  | Decimal.D4 u' => ch "4" :: uint_units u'
  | Decimal.D5 u' => ch "5" :: uint_units u'
  | Decimal.D6 u' => ch "6" :: uint_units u'
  | Decimal.D7 u' => ch "7" :: uint_units u'
  | Decimal.D8 u' => ch "8" :: uint_units u'
  | Decimal.D9 u' => ch "9" :: uint_units u'
  end.

(** The decimal digits of a natural number. *)
Definition decimal (z : Z) : jsstring := uint_units (N.to_uint (Z.to_N z)).

Definition number_eqb (x y : number) : bool :=
  match x, y with
  | Finite a m e, Finite b m' e' => Bool.eqb a b && (m =? m') && (e =? e')
  | Infinity a, Infinity b => Bool.eqb a b
  | _, _ => false
  end.

(** The search of [Number::toString] for the fewest digits: the positive
    finite value [x] is exactly [all * 10 ^ p] and [all] has [nd] digits.
    For [k] digits the two candidates are the first [k] digits of [all] and
    their successor; one is taken when it rounds to [x], the one nearer to
    [x] when both do, the even one when they are as near.  Without a shorter
    candidate all the digits are taken.  The result is the digits and the
    power of ten they are scaled by. *)
Fixpoint shortest (fuel : nat) (k : Z) (x : number) (all p nd : Z) : Z * Z :=
  match fuel with
  | O => (all, p)
  | S fuel' =>
      let t := nd - k in
      let low := all / 10 ^ t in
      let high := low + 1 in
      let low_ok := number_eqb (round_decimal false low (t + p)) x in
      let high_ok := number_eqb (round_decimal false high (t + p)) x in
      let below := all - low * 10 ^ t in
      let above := high * 10 ^ t - all in
      if low_ok && high_ok then
        if (below <? above) || ((below =? above) && Z.even low)
        then (low, t + p) else (high, t + p)
      else if low_ok then (low, t + p)
      else if high_ok then (high, t + p)
      else shortest fuel' (k + 1) x all p nd
  end.

(** The text of the digits [s] (no zero at either end) with the decimal
    point after [n] of them: plain digits for [k <= n <= 21], a point inside
    for [0 < n <= 21], leading zeros for [-6 < n <= 0], the exponent form
    otherwise. *)
Definition digits_text (s : jsstring) (n : Z) : jsstring :=
  match s with
  | [] => lit "0"
  | d :: ds =>
      let k := Z.of_nat (length s) in
      if (k <=? n) && (n <=? 21) then
        s ++ repeat (ch "0") (Z.to_nat (n - k))
      else if (0 <? n) && (n <=? 21) then
        firstn (Z.to_nat n) s ++ lit "." ++ skipn (Z.to_nat n) s
      else if (-6 <? n) && (n <=? 0) then
        lit "0." ++ repeat (ch "0") (Z.to_nat (- n)) ++ s
      else
        let e := (if n - 1 <? 0 then lit "-" else lit "+")
                 ++ decimal (Z.abs (n - 1)) in
        match ds with
        | [] => [d] ++ lit "e" ++ e
        | _ => [d] ++ lit "." ++ ds ++ lit "e" ++ e
        end
  end.

(** [Number::toString] in radix 10.  A finite value [m * 2 ^ e] is a
    decimal exactly: [m * 2 ^ e] itself for [0 <= e], and
    [m * 5 ^ (- e) * 10 ^ e] otherwise. *)
Definition Number_toString (x : number) : jsstring :=
  match x with
  | Infinity neg => (if neg then lit "-" else []) ++ lit "Infinity"
  | Finite neg m e =>
      if m =? 0 then lit "0"
      else
        let '(all, p) :=
          if 0 <=? e then (m * 2 ^ e, 0) else (m * 5 ^ (- e), e) in
        let nd := Z.of_nat (length (decimal all)) in
        let '(s, scale) :=
          shortest (Nat.pred (Z.to_nat nd)) 1 (Finite false m e) all p nd in
        let digits := decimal s in
        (if neg then lit "-" else [])
        ++ digits_text (rev (drop_zeros (rev digits)))
                       (Z.of_nat (length digits) + scale)
  end.

Definition has_own (name : jsstring) (ms : list (jsstring * value)) : bool :=
  existsb (fun kv => JsString.eqb (fst kv) name) ms.

(** [ToString(ToPrimitive(v))] on a parsed value; [None] is a [TypeError].
    An array is joined with commas, [null] elements giving the empty string.
    An object gives ["[object Object]"], unless it has a member named
    [toString]: that member is not callable and the inherited [valueOf]
    returns the object itself, so no primitive is reached. *)
Fixpoint ToString (v : value) : option jsstring :=
  match v with
  | JNull => Some (lit "null")
  | JBool true => Some (lit "true")
  | JBool false => Some (lit "false")
  | JNum n => Some (Number_toString n)
  | JStr s => Some s
  | JArr es =>
      (fix join (first : bool) (es : list value) : option jsstring :=
         match es with
         | [] => Some []
         | e :: rest =>
             let item := match e with JNull => Some [] | _ => ToString e end in
             match item, join false rest with
             | Some s, Some r =>
                 Some ((if first then [] else lit ",") ++ s ++ r)
             | _, _ => None
             end
         end) true es
  | JObj ms =>
      if has_own (lit "toString") ms then None
      else Some (lit "[object Object]")
  end.

End Json.

(* ================================================================== *)
(** ** The bridge: [src/index.ts] *)

Module Bridge.
Import Utf8 Json.

(** *** Request translation *)

(** The validated request body ([schema]) and its messages. *)
Record Message := { role : jsstring; content : jsstring }.

Record OpenAIRequest := {
  model : jsstring;
  messages : list Message;
  stream : option bool
}.

(** The body sent to the backend, before [JSON.stringify]. *)
Record BackendRequest := {
  backend_model : jsstring;
  backend_messages : list Message
}.

Definition requestParams (params : OpenAIRequest) : BackendRequest :=
  {| backend_model := model params;
     backend_messages :=
       map (fun message =>
              {| role := if JsString.eqb (role message) (lit "system")
                         then lit "user" else role message;
                 content := content message |})
           (messages params) |}.

(** *** The streaming relay *)

(** The object of a stream event before [JSON.stringify], without its
    [created] time stamp and its constant [content_filter_results: null].
    [None] is [null] for [finish_reason] and an absent key elsewhere.  The
    type annotation comes from [./types]; the fields are those of the two
    object literals of the callback. *)
Record OpenAIStreamResponse := {
  id : jsstring;
  object : jsstring;
  chunk_model : jsstring;
  index : Z;
  delta_role : option value;
  delta_content : option value;
  finish_reason : option jsstring;
  system_fingerprint : option jsstring
}.

(** What [stream.writeSSE({data})] is called with.  [Stringified chunk]
    stands for the text [JSON.stringify] gives for [chunk]: an absent key is
    left out, a string is written so that it reads back as it is, a number
    that is not finite is written [null]. *)
Inductive SSEData :=
| Stringified (chunk : OpenAIStreamResponse)
| Literal (data : jsstring).

Definition DONE : jsstring := lit "[DONE]".

Definition stop_chunk (m : jsstring) : OpenAIStreamResponse :=
  {| id := lit "chat-"; object := lit "chat.completion"; chunk_model := m;
     index := 0; delta_role := None; delta_content := None;
     finish_reason := Some (lit "stop");
     system_fingerprint := Some (lit "fp_44709d6fcb") |}.

Definition delta_chunk (m : jsstring) (r c : option value)
  : OpenAIStreamResponse :=
  {| id := lit "chatcmpl-duckduck-ai"; object := lit "chat.completion";
     chunk_model := m; index := 0; delta_role := r; delta_content := c;
     finish_reason := None; system_fingerprint := None |}.

(** The [try] block of a part that is not the sentinel: a [SyntaxError] of
    [JSON.parse] or a [TypeError] of the property reads is caught and
    nothing is written. *)
Definition relay (m : jsstring) (part : jsstring) : list SSEData :=
  match JSON_parse part with
  | None => []
  | Some response =>
      match get response (lit "role"), get response (lit "message") with
      | Some r, Some c => [Stringified (delta_chunk m r c)]
      | _, _ => []
      end
  end.

(** [for (let part of parts)]: what is written, and whether the callback
    returned at the sentinel. *)
Fixpoint for_parts (m : jsstring) (parts : list jsstring)
  : list SSEData * bool :=
  match parts with
  | [] => ([], false)
  | part :: rest =>
      let part := substring 6 part in
      if JsString.eqb part DONE then
        ([Stringified (stop_chunk m); Literal DONE], true)
      else
        let (out, returned) := for_parts m rest in
        (relay m part ++ out, returned)
  end.

(** One [reader.read()]: a chunk, or a rejection.  The list of reads ends
    with [{done: true}]. *)
Inductive ReadResult :=
| Chunk (value : list byte)
| ReadError.

(** [while (true)] of the callback, from the state [decoder], [buffer]. *)
Fixpoint read_loop (m : jsstring) (decoder : TextDecoder) (buffer : jsstring)
                   (reads : list ReadResult) : list SSEData :=
  match reads with
  | [] => []
  | ReadError :: _ => []
  | Chunk value :: reads' =>
      let (decoder', text) := decode decoder value in
      let (parts, buffer') := pop (split [LF] (buffer ++ text)) in
      let (out, returned) := for_parts m parts in
      if returned then out
      else out ++ read_loop m decoder' buffer' reads'
  end.

(** The callback given to [streamSSE]: everything it writes, in order. *)
Definition stream_callback (m : jsstring) (body : option (list ReadResult))
  : list SSEData :=
  match body with
  | None => []
  | Some reads => read_loop m new_TextDecoder [] reads
  end.

(** *** The non-streaming aggregation *)

(** [responseContent += parseJson["message"] ?? ''], [None] when it throws. *)
Definition append_message (responseContent : jsstring) (parseJson : value)
  : option jsstring :=
  match get parseJson (lit "message") with
  | None => None
  | Some None | Some (Some JNull) => Some (responseContent ++ [])
  | Some (Some message) =>
      match ToString message with
      | Some s => Some (responseContent ++ s)
      | None => None
      end
  end.

Fixpoint collect (responseContent : jsstring) (parts : list jsstring)
  : jsstring :=
  match parts with
  | [] => responseContent
  | part :: rest =>
      let part := substring 6 part in
      if JsString.eqb part DONE then responseContent
      else
        match JSON_parse part with
        | None => collect responseContent rest
        | Some parseJson =>
            match append_message responseContent parseJson with
            | Some responseContent' => collect responseContent' rest
            | None => collect responseContent rest
            end
        end
  end.

(** [responseContent] after the loop over [buffer.split("\n\n")]. *)
Definition aggregate (buffer : jsstring) : jsstring :=
  collect [] (split [LF; LF] buffer).

End Bridge.

(* ================================================================== *)
(** ** The handler of [POST /v1/chat/completions] *)

Module Handler.
Import Utf8 Json Bridge.

(** What the handler reads of the worker's environment and of the request,
    after the validator has accepted the body. *)
Record Env := { apikey : option jsstring }.

Record Request := {
  Authorization : option jsstring;
  x_vqd_4 : option jsstring;
  json : OpenAIRequest
}.

(** A promise of the backend: resolved with a value, or rejected. *)
Inductive Promise (A : Type) :=
| Resolved (a : A)
| Rejected.
Arguments Resolved {A} a.
Arguments Rejected {A}.

(** The response of the chat endpoint: [resp.ok], its [x-vqd-4] header and
    the reads of its body ([None]: no body). *)
Record FetchResponse := {
  ok : bool;
  resp_x_vqd_4 : option jsstring;
  body : option (list ReadResult)
}.

(** The backend as the handler meets it: the [x-vqd-4] header of the status
    response, and the chat response for a token and a request body. *)
Record Backend := {
  fetch_status : Promise (option jsstring);
  fetch_chat : jsstring -> BackendRequest -> Promise FetchResponse
}.

(** [getXcqd4]: the status call and the [x-vqd-4] header of its response
    ([None]: no such header); a rejection of the call is thrown again. *)
Definition getXcqd4 (backend : Backend) : Promise (option jsstring) :=
  fetch_status backend.

(** The [fetch] calls made, in order. *)
Inductive Call :=
| StatusCall
| ChatCall (token : jsstring) (request : BackendRequest).

Inductive Payload :=
| JsonBody (v : value)
| EventStream (events : list SSEData).

(** The handler's response: status, the [x-vqd-4] header set with
    [c.header] ([None]: not set) and the payload. *)
Record Response := {
  status : Z;
  header_x_vqd_4 : option jsstring;
  payload : Payload
}.

Definition c_json (header : option jsstring) (v : value) (code : Z)
  : Response :=
  {| status := code; header_x_vqd_4 := header; payload := JsonBody v |}.

Definition error_payload (message : jsstring) : value :=
  JObj [(lit "error", JStr message)].

(** [{error: error}] for a caught exception: an [Error] has no enumerable
    property and is serialised as an empty object. *)
Definition caught_payload : value := JObj [(lit "error", JObj [])].

Definition api_error_payload (errorText : jsstring) : value :=
  JObj [(lit "error", JStr (lit "api request error"));
        (lit "message", JStr errorText)].

(** [!s] on an optional string: absent or empty. *)
Definition falsy (s : option jsstring) : bool :=
  match s with
  | None | Some [] => true
  | Some (_ :: _) => false
  end.

(** [s || ""]. *)
Definition or_empty (s : option jsstring) : jsstring :=
  match s with
  | Some s' => s'
  | None => []
  end.

(** All the bytes of a body, [None] when a read rejects. *)
Fixpoint read_all (reads : list ReadResult) : option (list byte) :=
  match reads with
  | [] => Some []
  | ReadError :: _ => None
  | Chunk value :: reads' =>
      match read_all reads' with
      | Some rest => Some (value ++ rest)
      | None => None
      end
  end.

(** [await resp.text()]. *)
Definition text (b : option (list ReadResult)) : Promise jsstring :=
  match b with
  | None => Resolved []
  | Some reads =>
      match read_all reads with
      | Some bytes => Resolved (utf8_decode bytes)
      | None => Rejected
      end
  end.

(** The number 0. *)
Definition zero : value := JNum (Finite false 0 (-1074)).

(** The [OpenAIResponse] object, without its [created] time stamp. *)
Definition completion (m responseContent : jsstring) : value :=
  JObj [(lit "id", JStr (lit "chatcmpl-duckduck-ai"));
        (lit "object", JStr (lit "chat.completion"));
        (lit "model", JStr m);
        (lit "system_fingerprint", JStr (lit "fp_44709d6fcb"));
        (lit "choices",
         JArr [JObj [(lit "index", zero);
                     (lit "message",
                      JObj [(lit "role", JStr (lit "assistant"));
                            (lit "content", JStr responseContent)]);
                     (lit "logprobs", JNull);
                     (lit "finish_reason", JStr (lit "stop"))]]);
        (lit "usage",
         JObj [(lit "prompt_tokens", zero);
               (lit "completion_tokens", zero);
               (lit "total_tokens", zero)])].

(** The API key check; [Some r] is the early return. *)
Definition check_apikey (env : Env) (req : Request) : option Response :=
  match apikey env with
  | None | Some [] => None
  | Some key =>
      match Authorization req with
      | None | Some [] =>
          Some (c_json None (error_payload (lit "authorization error")) 401)
      | Some authorization =>
          if JsString.eqb key (substring 7 authorization) then None
          else Some (c_json None (error_payload (lit "apikey error")) 401)
      end
  end.

(** After a successful chat call: the header is set, then the body is
    relayed or aggregated.  [None] is the handler returning nothing. *)
Definition respond (params : OpenAIRequest) (resp : FetchResponse)
  : option Response :=
  let header := Some (or_empty (resp_x_vqd_4 resp)) in
  match stream params with
  | Some true =>
      Some {| status := 200; header_x_vqd_4 := header;
              payload := EventStream (stream_callback (model params)
                                                      (body resp)) |}
  | _ =>
      match body resp with
      | None => None
      | Some _ =>
          match text (body resp) with
          | Rejected => Some (c_json header caught_payload 400)
          | Resolved buffer =>
              Some (c_json header
                           (completion (model params) (aggregate buffer))
                           200)
          end
      end
  end.

(** The [try] block once the token [x4] is known. *)
Definition chat_with (backend : Backend) (params : OpenAIRequest)
                     (x4 : jsstring) : list Call * option Response :=
  let request := requestParams params in
  ([ChatCall x4 request],
   match fetch_chat backend x4 request with
   | Rejected => Some (c_json None caught_payload 400)
   | Resolved resp =>
       if ok resp then respond params resp
       else
         match text (body resp) with
         | Rejected => Some (c_json None caught_payload 400)
         | Resolved errorText =>
             Some (c_json None (api_error_payload errorText) 400)
         end
   end).

(** The handler: the [fetch] calls it makes and its response. *)
Definition chat_completions (env : Env) (backend : Backend) (req : Request)
  : list Call * option Response :=
  match check_apikey env req with
  | Some r => ([], Some r)
  | None =>
      let params := json req in
      if falsy (x_vqd_4 req) then
        match getXcqd4 backend with
        | Rejected => ([StatusCall], Some (c_json None caught_payload 400))
        | Resolved token =>
            if falsy token then
              ([StatusCall],
               Some (c_json None (error_payload (lit "x-xqd-4 get error"))
                            400))
            else
              let (calls, r) := chat_with backend params (or_empty token) in
              (StatusCall :: calls, r)
        end
      else chat_with backend params (or_empty (x_vqd_4 req))
  end.

End Handler.

(* ================================================================== *)
(** ** Notions used to state the properties *)

Module Spec.
Import Utf8 Json Bridge Handler.

(** The text the streaming path has decoded once all of [bytes] was read. *)
Definition stream_text (bytes : list byte) : jsstring :=
  snd (decode new_TextDecoder bytes).

(** The lines of [text] that are ended by a line feed. *)
Definition complete_lines (text : jsstring) : list jsstring :=
  fst (pop (split [LF] text)).

(** A body whose reads all succeed, delivered as [chunks]. *)
Definition graceful (chunks : list (list byte)) : option (list ReadResult) :=
  Some (map Chunk chunks).

(** Frames, each followed by a blank-line delimiter. *)
Definition framed (frames : list jsstring) : jsstring :=
  concat (map (fun f => f ++ [LF; LF]) frames).

(** The text delta a written event carries: the content of a chunk that is
    not the terminal one, when it is a string.  [JSON.stringify] writes a
    string so that it is read back as it is; an event without content, or
    whose content is not a string, carries no text. *)
Definition delta_text (e : SSEData) : jsstring :=
  match e with
  | Literal _ => []
  | Stringified chunk =>
      match finish_reason chunk, delta_content chunk with
      | None, Some (JStr s) => s
      | _, _ => []
      end
  end.

Definition streamed_text (events : list SSEData) : jsstring :=
  flat_map delta_text events.

(** An event that relays a backend frame: a stringified chunk whose
    [finish_reason] is [null]. *)
Definition is_delta (e : SSEData) : Prop :=
  match e with
  | Stringified chunk => finish_reason chunk = None
  | Literal _ => False
  end.

(** The line is the sentinel once its prefix is stripped. *)
Definition sentinel_line (l : jsstring) : Prop := substring 6 l = DONE.

(** The fresh token acquisition yields no token: the status call fails, or
    its response has no or an empty [x-vqd-4] header. *)
Definition no_fresh_token (backend : Backend) : Prop :=
  getXcqd4 backend = Rejected \/
  exists t, getXcqd4 backend = Resolved t /\ falsy t = true.

(** The message of a payload is text: a string, or [null], or absent. *)
Definition textual (v : value) : Prop :=
  match v with
  | JObj ms =>
      match lookup (lit "message") ms with
      | Some (JStr _) | Some JNull | None => True
      | Some _ => False
      end
  | _ => True
  end.

(** A frame whose payload, when it is JSON, has a message that is text. *)
Definition text_frame (f : jsstring) : Prop :=
  forall v, JSON_parse (substring 6 f) = Some v -> textual v.

(** The payloads of the lines, in order: what each line is from index 6 on,
    when that is JSON other than the literal [null]. *)
Definition payloads (lines : list jsstring) : list value :=
  flat_map (fun l => match JSON_parse (substring 6 l) with
                     | Some JNull | None => []
                     | Some v => [v]
                     end) lines.

(** A member of an object, nothing for another value. *)
Definition field (name : jsstring) (v : value) : option value :=
  match v with
  | JObj ms => lookup name ms
  | _ => None
  end.

(** The frame of the target format for a payload: the role and the text of
    the payload in the delta, [finish_reason] [null]. *)
Definition frame_of (m : jsstring) (v : value) : SSEData :=
  Stringified
    {| id := lit "chatcmpl-duckduck-ai"; object := lit "chat.completion";
       chunk_model := m; index := 0;
       delta_role := field (lit "role") v;
       delta_content := field (lit "message") v;
       finish_reason := None; system_fingerprint := None |}.

(** A member of a JSON object payload. *)
Definition member (name : jsstring) (p : Payload) : option value :=
  match p with
  | JsonBody (JObj ms) => lookup name ms
  | _ => None
  end.

End Spec.

(* ================================================================== *)
(** ** Concrete inputs *)

Module Inputs.
Import Utf8 Json Bridge Handler Spec.

(** The bytes of an ASCII text in which an apostrophe stands for a quotation
    mark and a vertical bar for a line feed. *)
Definition ascii_byte (a : ascii) : byte :=
  match a with
  | "'"%char => x22
  | "|"%char => x0a
  | _ => byte_of_ascii a
  end.

Definition bytes (s : string) : list byte :=
  map ascii_byte (list_ascii_of_string s).

(** The same text as a string value. *)
Definition text_of (s : string) : jsstring := map byte_val (bytes s).

Definition gpt : jsstring := lit "gpt-4o-mini".

(** Frames separated by single line feeds. *)
Definition single_lf_stream : list (list byte) :=
  [bytes "data: {'message':'a'}|data: {'message':'b'}|"].

(** The example of the specification, blank-line framed, cut inside a line. *)
Definition hello_stream : list (list byte) :=
  [bytes "data: {'message':'Hel'}||data: {'mes";
   bytes "sage':'lo'}||data: [DONE]||"].


(** A stream closed without sentinel, and one closed inside the sentinel
    line. *)
Definition open_stream : list (list byte) :=
  [bytes "data: {'message':'Hi'}|"].

Definition cut_stream : list (list byte) :=
  [bytes "data: {'message':'Hi'}|"; bytes "data: [DONE]"].

Definition no_key : Env := {| apikey := None |}.

Definition request (token : option jsstring) (s : option bool) : Request :=
  {| Authorization := None; x_vqd_4 := token;
     json := {| model := gpt;
                messages := [ {| role := lit "system";
                                 content := lit "Be terse" |};
                              {| role := lit "user"; content := lit "Hi" |} ];
                stream := s |} |}.

(** A backend without token whose chat endpoint is never to be reached. *)
Definition tokenless_backend : Backend :=
  {| fetch_status := Resolved None;
     fetch_chat := fun _ _ => Rejected |}.

(** A backend that refuses the chat call. *)
Definition refusing_backend : Backend :=
  {| fetch_status := Resolved (Some (lit "fresh"));
     fetch_chat := fun _ _ =>
       Resolved {| ok := false; resp_x_vqd_4 := None;
                   body := Some [Chunk (bytes "rate limited")] |} |}.

(** A backend that answers the chat call and hands out the next token. *)
Definition rotating_backend : Backend :=
  {| fetch_status := Resolved (Some (lit "fresh"));
     fetch_chat := fun _ _ =>
       Resolved {| ok := true; resp_x_vqd_4 := Some (lit "next");
                   body := Some (map Chunk hello_stream) |} |}.

End Inputs.

(* ================================================================== *)
(** ** The headers sent to the backend *)

Module Wire.
Import Json.

(** The constant [headers]: an object literal, its properties in the order
    they are written. *)
Definition headers : list (jsstring * value) :=
  [(lit "User-Agent",
    JStr (lit "Mozilla/5.0 (Windows NT 10.0; WOW64) AppleWebKit/537.36 "
          ++ lit "(KHTML, like Gecko) Chrome/102.0.0.0 Safari/537.36"));
   (lit "Accept", JStr (lit "text/event-stream"));
   (lit "Accept-Language", JStr (lit "de,en-US;q=0.7,en;q=0.3"));
   (lit "Accept-Encoding", JStr (lit "gzip, deflate, br"));
   (lit "Referer", JStr (lit "https://duckduckgo.com/?q=DuckDuckGo&ia=chat"));
   (lit "Content-Type", JStr (lit "application/json"));
   (lit "Origin", JStr (lit "https://duckduckgo.com"));
   (lit "Connection", JStr (lit "keep-alive"));
   (lit "Cookie", JStr (lit "dcm=1; bg=-1"));
   (lit "Sec-Fetch-Dest", JStr (lit "empty"));
   (lit "Sec-Fetch-Mode", JStr (lit "cors"));
   (lit "Sec-Fetch-Site", JStr (lit "same-origin"));
   (lit "Pragma", JStr (lit "no-cache"));
   (lit "TE", JStr (lit "trailers"));
   (lit "x-vqd-accept", JStr (lit "1"));
   (lit "cache-control", JStr (lit "no-store"))].

(** The object literal of the chat call's [headers]: the property
    [x-vqd-4], then the spread of [headers], whose properties are defined
    after it and would replace one of the same name. *)
Definition chat_headers (x4 : jsstring) : list (jsstring * value) :=
  (lit "x-vqd-4", JStr x4) :: headers.

End Wire.

(* ================================================================== *)
(** ** The state of the relay loop *)

Module LoopState.
Import Utf8 Bridge.

(** [decoder] and [buffer] after the reads of [chunks], as the three
    statements at the head of the loop body leave them, while the callback
    has not returned. *)
Fixpoint state_after (decoder : TextDecoder) (buffer : jsstring)
                     (chunks : list (list byte)) : TextDecoder * jsstring :=
  match chunks with
  | [] => (decoder, buffer)
  | value :: chunks' =>
      let (decoder', text) := decode decoder value in
      let (_, buffer') := pop (split [LF] (buffer ++ text)) in
      state_after decoder' buffer' chunks'
  end.

End LoopState.

(* ================================================================== *)
(** ** Further notions and inputs *)

Module Notions.
Import Utf8 Json Bridge Handler Spec.

(** The frame carries the text [s]: stripped of its prefix it is a JSON
    object whose [message] is the string [s]. *)
Definition carries (f s : jsstring) : Prop :=
  exists ms, JSON_parse (substring 6 f) = Some (JObj ms)
             /\ lookup (lit "message") ms = Some (JStr s).

(** The part is malformed: stripped of its prefix it is neither the
    sentinel nor JSON. *)
Definition malformed (f : jsstring) : Prop :=
  ~ sentinel_line f /\ JSON_parse (substring 6 f) = None.

(** An event written for a request of model [m]: a [chat.completion] chunk
    of index 0 with that model id, or the literal end marker. *)
Definition event_of (m : jsstring) (e : SSEData) : Prop :=
  match e with
  | Stringified chunk =>
      chunk_model chunk = m /\ index chunk = 0
      /\ object chunk = lit "chat.completion"
  | Literal data => data = DONE
  end.

(** Lines joined again, each with its line feed. *)
Definition join_lines (lines : list jsstring) : jsstring :=
  concat (map (fun l => l ++ [LF]) lines).

(** [!s] on a string. *)
Definition empty (s : jsstring) : bool :=
  match s with
  | [] => true
  | _ :: _ => false
  end.

End Notions.

Module MoreInputs.
Import Utf8 Json Bridge Handler Spec Inputs.

Definition keyed : Env := {| apikey := Some (lit "secret") |}.

Definition authorized (a : jsstring) (token : option jsstring) : Request :=
  {| Authorization := Some a; x_vqd_4 := token;
     json := json (request None None) |}.

(** A backend whose chat call fails on the network. *)
Definition unreachable_backend : Backend :=
  {| fetch_status := Resolved (Some (lit "fresh"));
     fetch_chat := fun _ _ => Rejected |}.

(** A backend whose body breaks after the first chunk. *)
Definition breaking_backend : Backend :=
  {| fetch_status := Resolved (Some (lit "fresh"));
     fetch_chat := fun _ _ =>
       Resolved {| ok := true; resp_x_vqd_4 := Some (lit "next");
                   body := Some [Chunk (bytes "data: {'message':'Hi'}|");
                                 ReadError] |} |}.

(** A backend that refuses the chat call and whose error body cannot be
    read. *)
Definition failing_backend : Backend :=
  {| fetch_status := Resolved (Some (lit "fresh"));
     fetch_chat := fun _ _ =>
       Resolved {| ok := false; resp_x_vqd_4 := None;
                   body := Some [ReadError] |} |}.

(** A backend that answers without body. *)
Definition bodiless_backend : Backend :=
  {| fetch_status := Resolved (Some (lit "fresh"));
     fetch_chat := fun _ _ =>
       Resolved {| ok := true; resp_x_vqd_4 := None; body := None |} |}.

(** Blank-line framed bodies: one closed by the sentinel with a frame after
    it, one with a malformed frame, one whose last frame has no
    delimiter. *)
Definition hel : jsstring := text_of "data: {'message':'Hel'}".
Definition lo : jsstring := text_of "data: {'message':'lo'}".
Definition done_frame : jsstring := text_of "data: [DONE]".
Definition broken : jsstring := text_of "data: {'mess".

End MoreInputs.

(* ================================================================== *)
(** * Properties *)

(** ** Strings and [split] *)

Module JsStringFacts.

Lemma last_app_nonempty {A : Type} (l l' : list A) (d : A) :
  l' <> [] -> last (l ++ l') d = last l' d.
Proof.
  intros Hne. induction l as [|x l IH]; [reflexivity|].
  simpl. rewrite IH. destruct (l ++ l') eqn:E; [|reflexivity].
  apply app_eq_nil in E as [_ E]. congruence.
Qed.

Lemma eqb_eq (a b : jsstring) : JsString.eqb a b = true <-> a = b.
Proof.
  revert b; induction a as [|x a IH]; intros [|y b]; simpl;
    try (split; [discriminate | discriminate]); [tauto|].
  rewrite andb_true_iff, Z.eqb_eq, IH.
  split; [intros [-> ->]; reflexivity | intros H; inversion H; auto].
Qed.

Lemma eqb_refl (a : jsstring) : JsString.eqb a a = true.
Proof. apply eqb_eq; reflexivity. Qed.

Lemma eqb_neq (a b : jsstring) : JsString.eqb a b = false <-> a <> b.
Proof.
  rewrite <- eqb_eq. destruct (JsString.eqb a b); split; congruence.
Qed.

Lemma no_lf_nil : no_lf [].
Proof. intros []. Qed.

Lemma no_lf_cons (c : Z) (s : jsstring) :
  no_lf (c :: s) <-> c <> LF /\ no_lf s.
Proof.
  unfold no_lf; simpl; split.
  - intros H; split;
      [intros ->; apply H; now left | intros Hs; apply H; now right].
  - intros [Hc Hs] [E|E]; [congruence | auto].
Qed.

Lemma no_lf_app (a b : jsstring) : no_lf (a ++ b) <-> no_lf a /\ no_lf b.
Proof. unfold no_lf; rewrite in_app_iff; tauto. Qed.

Lemma no_lf_rev (a : jsstring) : no_lf (rev a) <-> no_lf a.
Proof. unfold no_lf; rewrite <- in_rev; tauto. Qed.

Lemma split_go_nonempty (sep : jsstring) (skip : nat) (cur s : jsstring) :
  split_go sep skip cur s <> [].
Proof.
  revert skip cur; induction s as [|c s IH]; intros skip cur; simpl;
    [discriminate|].
  destruct skip; [|apply IH].
  destruct (starts_with sep (c :: s)); [discriminate | apply IH].
Qed.

(** One step of the scan for the separator ["\n"]. *)
Lemma split_go_lf_cons (cur : jsstring) (c : Z) (s : jsstring) :
  split_go [LF] 0 cur (c :: s) =
  if c =? LF then rev cur :: split_go [LF] 0 [] s
  else split_go [LF] 0 (c :: cur) s.
Proof.
  cbn [split_go starts_with length pred].
  rewrite andb_true_r, (Z.eqb_sym LF c). reflexivity.
Qed.

(** Code units other than the line feed only extend the current piece. *)
Lemma split_go_lf_shift (x cur b : jsstring) :
  no_lf x ->
  split_go [LF] 0 cur (x ++ b) = split_go [LF] 0 (rev x ++ cur) b.
Proof.
  revert cur; induction x as [|c x IH]; intros cur Hx; [reflexivity|].
  apply no_lf_cons in Hx as [Hc Hx].
  change ((c :: x) ++ b) with (c :: (x ++ b)).
  rewrite split_go_lf_cons. apply Z.eqb_neq in Hc. rewrite Hc.
  rewrite IH by assumption. simpl. now rewrite <- app_assoc.
Qed.

Lemma split_go_lf_pieces (s cur : jsstring) :
  no_lf cur -> Forall no_lf (split_go [LF] 0 cur s).
Proof.
  revert cur; induction s as [|c s IH]; intros cur Hcur.
  - simpl. constructor; [now apply no_lf_rev | constructor].
  - rewrite split_go_lf_cons. destruct (Z.eqb_spec c LF) as [E|E].
    + constructor; [now apply no_lf_rev | apply IH, no_lf_nil].
    + apply IH. now apply no_lf_cons.
Qed.

Lemma split_go_lf_app (a cur b : jsstring) :
  no_lf cur ->
  split_go [LF] 0 cur (a ++ b) =
  removelast (split_go [LF] 0 cur a)
  ++ split_go [LF] 0 [] (last (split_go [LF] 0 cur a) [] ++ b).
Proof.
  revert cur; induction a as [|c a IH]; intros cur Hcur.
  - simpl. rewrite split_go_lf_shift by now apply no_lf_rev.
    now rewrite rev_involutive, app_nil_r.
  - change ((c :: a) ++ b) with (c :: (a ++ b)).
    rewrite !split_go_lf_cons. destruct (Z.eqb_spec c LF) as [E|E].
    + rewrite IH by apply no_lf_nil.
      pose proof (split_go_nonempty [LF] 0 [] a) as Hne.
      destruct (split_go [LF] 0 [] a) as [|p ps] eqn:Ep; [congruence|].
      reflexivity.
    + apply IH. now apply no_lf_cons.
Qed.

(** The pieces of a text read in two parts: the complete pieces of the
    first part, then the pieces of its last piece followed by the second. *)
Lemma split_lf_app (a b : jsstring) :
  split [LF] (a ++ b) =
  removelast (split [LF] a) ++ split [LF] (last (split [LF] a) [] ++ b).
Proof. apply split_go_lf_app, no_lf_nil. Qed.

Lemma split_lf_pieces (s : jsstring) : Forall no_lf (split [LF] s).
Proof. apply split_go_lf_pieces, no_lf_nil. Qed.

Lemma last_split_no_lf (s : jsstring) : no_lf (last (split [LF] s) []).
Proof.
  pose proof (split_lf_pieces s) as H.
  pose proof (split_go_nonempty [LF] 0 [] s) as Hne. fold (split [LF] s) in Hne.
  rewrite Forall_forall in H. apply H.
  destruct (exists_last Hne) as (l & x & ->). rewrite last_last.
  apply in_or_app; right; now left.
Qed.

Lemma split_lf_no_lf (x : jsstring) : no_lf x -> split [LF] x = [x].
Proof.
  intros Hx. unfold split.
  rewrite <- (app_nil_r x) at 1. rewrite split_go_lf_shift by assumption.
  simpl. now rewrite app_nil_r, rev_involutive.
Qed.

Lemma split_lf_line (l rest : jsstring) :
  no_lf l -> split [LF] (l ++ LF :: rest) = l :: split [LF] rest.
Proof.
  intros Hl. unfold split. rewrite split_go_lf_shift by assumption.
  rewrite split_go_lf_cons, Z.eqb_refl, app_nil_r, rev_involutive.
  reflexivity.
Qed.

(** The scan for the separator ["\n\n"] over a piece without line feed. *)
Lemma split_go_blank_frame (f cur rest : jsstring) :
  no_lf f ->
  split_go [LF; LF] 0 cur (f ++ LF :: LF :: rest) =
  (rev cur ++ f) :: split_go [LF; LF] 0 [] rest.
Proof.
  revert cur; induction f as [|c f IH]; intros cur Hf.
  - simpl. now rewrite app_nil_r.
  - apply no_lf_cons in Hf as [Hc Hf].
    change ((c :: f) ++ LF :: LF :: rest) with (c :: (f ++ LF :: LF :: rest)).
    cbn [split_go starts_with].
    replace (LF =? c) with false by (symmetry; apply Z.eqb_neq; congruence).
    cbn [andb]. rewrite IH by assumption. simpl. now rewrite <- app_assoc.
Qed.

Lemma split_blank_frame (f rest : jsstring) :
  no_lf f ->
  split [LF; LF] (f ++ LF :: LF :: rest) = f :: split [LF; LF] rest.
Proof. intros Hf. unfold split. now rewrite split_go_blank_frame. Qed.

End JsStringFacts.

(** ** The streaming decoder *)

Module Utf8Facts.
Import Utf8.

Lemma run_app (d : decoder) (a b : list byte) :
  run d (a ++ b) =
  let (d1, out1) := run d a in
  let (d2, out2) := run d1 b in
  (d2, out1 ++ out2).
Proof.
  revert d; induction a as [|x a IH]; intros d; simpl.
  - now destruct (run d b).
  - destruct (step d (byte_val x)) as [d1 o1]. rewrite IH.
    destruct (run d1 a) as [d2 o2], (run d2 b) as [d3 o3].
    now rewrite app_assoc.
Qed.

Lemma serialize_seen (items : list Z) :
  serialize true items = (true, flat_map code_units items).
Proof.
  induction items as [|cp items IH]; simpl; [reflexivity|].
  now rewrite IH.
Qed.

Lemma serialize_app (seen : bool) (a b : list Z) :
  serialize seen (a ++ b) =
  let (seen1, s1) := serialize seen a in
  let (seen2, s2) := serialize seen1 b in
  (seen2, s1 ++ s2).
Proof.
  revert seen; induction a as [|cp a IH]; intros seen; simpl.
  - now destruct (serialize seen b).
  - destruct (negb seen && (cp =? BOM)).
    + apply IH.
    + rewrite IH. destruct (serialize true a) as [s1 t1].
      destruct (serialize s1 b) as [s2 t2]. now rewrite app_assoc.
Qed.

(** Decoding a chunk in two calls gives the text and the state of one
    call: the decoder keeps an unfinished sequence between calls. *)
Lemma decode_app (td : TextDecoder) (a b : list byte) :
  decode td (a ++ b) =
  let (td1, s1) := decode td a in
  let (td2, s2) := decode td1 b in
  (td2, s1 ++ s2).
Proof.
  unfold decode. rewrite run_app.
  destruct (run (utf8 td) a) as [d1 o1]. destruct (run d1 b) as [d2 o2] eqn:E2.
  rewrite serialize_app.
  destruct (serialize (BOM_seen td) o1) as [b1 s1]. simpl. rewrite E2.
  now destruct (serialize b1 o2).
Qed.

Lemma decode_nil (td : TextDecoder) : decode td [] = (td, []).
Proof. now destruct td. Qed.

(** *** The byte order mark: [Response.text()] against [TextDecoder] *)

Lemma byte_val_range (b : byte) : 0 <= byte_val b < 256.
Proof. unfold byte_val. pose proof (Byte.to_N_bounded b). lia. Qed.

Lemma byte_val_eq (b c : byte) : byte_val b = byte_val c -> b = c.
Proof.
  unfold byte_val. intros H. apply N2Z.inj in H.
  pose proof (Byte.of_to_N b) as Hb. rewrite H, Byte.of_to_N in Hb. congruence.
Qed.

(** The six payload bits of a continuation byte are added below the bits
    read so far. *)
Lemma continuation_value (a v : Z) :
  0 <= a -> 0 <= v ->
  Z.lor (Z.shiftl a 6) (Z.land v 0x3F) = a * 64 + v mod 64.
Proof.
  intros Ha Hv. change 0x3F with (Z.ones 6). rewrite Z.land_ones by lia.
  change (2 ^ 6) with 64.
  assert (E : Z.land (Z.shiftl a 6) (v mod 64) = 0).
  { apply Z.bits_inj'. intros n Hn. rewrite Z.land_spec, Z.bits_0.
    destruct (Z.ltb_spec n 6).
    - rewrite Z.shiftl_spec_low by assumption. reflexivity.
    - change 64 with (2 ^ 6). rewrite Z.mod_pow2_bits_high by lia.
      apply andb_false_r. }
  pose proof (Z.add_lor_land (Z.shiftl a 6) (v mod 64)) as H.
  rewrite E in H. rewrite Z.shiftl_mul_pow2 in * by lia.
  change (2 ^ 6) with 64 in *. lia.
Qed.

Lemma run_cons_snd (d : decoder) (b : byte) (r : list byte) :
  snd (run d (b :: r)) =
  snd (step d (byte_val b)) ++ snd (run (fst (step d (byte_val b))) r).
Proof.
  cbn [run]. destruct (step d (byte_val b)) as [d1 o1].
  cbn [fst snd]. now destruct (run d1 r).
Qed.

Lemma some_inj {A : Type} (a b : A) : Some a = Some b -> a = b.
Proof. congruence. Qed.

Ltac next_byte H r b v R :=
  destruct r as [|b r]; [discriminate H|];
  rewrite run_cons_snd in H; pose proof (byte_val_range b) as R;
  set (v := byte_val b) in *;
  unfold step in H;
  cbn [bytes_needed lower_boundary upper_boundary code_point bytes_seen
       fst snd Z.eqb app] in H.

Ltac out_of_range H v :=
  cbn [negb] in H; destruct (lead v); cbn in H; discriminate H.

Ltac bounds :=
  repeat match goal with
         | E : _ && _ = true |- _ => apply andb_true_iff in E; destruct E
         | E : (_ <=? _) = true |- _ => apply Z.leb_le in E
         | E : (_ <=? _) = false |- _ => apply Z.leb_gt in E
         | E : (_ =? _) = true |- _ => apply Z.eqb_eq in E
         | E : (_ =? _) = false |- _ => apply Z.eqb_neq in E
         end.

(** Only the bytes EF BB BF decode to U+FEFF as the first code point. *)
Lemma first_item_bom (bytes : list byte) :
  hd_error (snd (run fresh bytes)) = Some BOM ->
  exists rest, bytes = xef :: xbb :: xbf :: rest.
Proof.
  intros H. destruct bytes as [|b1 r1]; [discriminate|].
  rewrite run_cons_snd in H. pose proof (byte_val_range b1) as R1.
  set (v1 := byte_val b1) in *.
  unfold step in H. cbn [bytes_needed fresh Z.eqb] in H.
  unfold lead in H.
  destruct (v1 <=? 0x7F) eqn:E1.
  { cbn in H. unfold BOM in H. injection H as H. bounds. lia. }
  destruct ((0xC2 <=? v1) && (v1 <=? 0xDF)) eqn:E2.
  { cbn [fst snd app] in H. next_byte H r1 b2 v2 R2.
    destruct ((128 <=? v2) && (v2 <=? 191)) eqn:C2; [|out_of_range H v2].
    cbn [negb fst snd app] in H. change (0 + 1 =? 1) with true in H.
    cbn [fst snd app hd_error] in H. apply some_inj in H. exfalso.
    change 31 with (Z.ones 5) in H. rewrite Z.land_ones in H by lia.
    rewrite continuation_value in H by (try apply Z.mod_pos_bound; lia).
    unfold BOM in H. Z.div_mod_to_equations. lia. }
  destruct ((0xE0 <=? v1) && (v1 <=? 0xEF)) eqn:E3.
  { cbn [fst snd app] in H. next_byte H r1 b2 v2 R2.
    destruct ((_ <=? v2) && (v2 <=? _)) eqn:C2 in H; [|out_of_range H v2].
    cbn [negb fst snd app] in H. change (0 + 1 =? 2) with false in H.
    cbn [fst snd app] in H. next_byte H r1 b3 v3 R3.
    destruct ((128 <=? v3) && (v3 <=? 191)) eqn:C3; [|out_of_range H v3].
    cbn [negb fst snd app] in H. change (0 + 1 + 1 =? 2) with true in H.
    cbn [fst snd app hd_error] in H. apply some_inj in H.
    change 15 with (Z.ones 4) in H. rewrite Z.land_ones in H by lia.
    assert (R : 0 <= v1 mod 2 ^ 4 < 16) by (apply Z.mod_pos_bound; lia).
    rewrite (continuation_value _ v2) in H by lia.
    rewrite continuation_value in H by (Z.div_mod_to_equations; lia).
    unfold BOM in H.
    assert (B2 : 128 <= v2 <= 191)
      by (bounds; destruct (v1 =? 224), (v1 =? 237); lia).
    bounds.
    assert (v1 = byte_val xef /\ v2 = byte_val xbb /\ v3 = byte_val xbf)
      as (A1 & A2 & A3).
    { change (byte_val xef) with 239. change (byte_val xbb) with 187.
      change (byte_val xbf) with 191. change (2 ^ 4) with 16 in *.
      Z.div_mod_to_equations. lia. }
    apply byte_val_eq in A1, A2, A3. subst. now exists r1. }
  destruct ((0xF0 <=? v1) && (v1 <=? 0xF4)) eqn:E4.
  { cbn [fst snd app] in H. next_byte H r1 b2 v2 R2.
    destruct ((_ <=? v2) && (v2 <=? _)) eqn:C2 in H; [|out_of_range H v2].
    cbn [negb fst snd app] in H. change (0 + 1 =? 3) with false in H.
    cbn [fst snd app] in H. next_byte H r1 b3 v3 R3.
    destruct ((128 <=? v3) && (v3 <=? 191)) eqn:C3; [|out_of_range H v3].
    cbn [negb fst snd app] in H. change (0 + 1 + 1 =? 3) with false in H.
    cbn [fst snd app] in H. next_byte H r1 b4 v4 R4.
    destruct ((128 <=? v4) && (v4 <=? 191)) eqn:C4; [|out_of_range H v4].
    cbn [negb fst snd app] in H. change (0 + 1 + 1 + 1 =? 3) with true in H.
    cbn [fst snd app hd_error] in H. apply some_inj in H. exfalso.
    change 7 with (Z.ones 3) in H. rewrite Z.land_ones in H by lia.
    assert (R : 0 <= v1 mod 2 ^ 3 < 8) by (apply Z.mod_pos_bound; lia).
    rewrite (continuation_value _ v2) in H by lia.
    rewrite (continuation_value _ v3) in H by (Z.div_mod_to_equations; lia).
    rewrite continuation_value in H by (Z.div_mod_to_equations; lia).
    unfold BOM in H.
    assert (B2 : 128 <= v2 <= 191 /\ (v1 = 240 -> 144 <= v2))
      by (bounds; destruct (Z.eqb_spec v1 240), (v1 =? 244); lia).
    bounds. change (2 ^ 3) with 8 in *.
    Z.div_mod_to_equations. lia. }
  cbn in H. discriminate H.
Qed.

Lemma strip_bom_cases (bytes : list byte) :
  strip_bom bytes = bytes \/ exists rest, bytes = xef :: xbb :: xbf :: rest.
Proof.
  destruct bytes as [|b1 r]; [left; reflexivity|].
  destruct b1; try (left; reflexivity).
  destruct r as [|b2 r]; [left; reflexivity|].
  destruct b2; try (left; reflexivity).
  destruct r as [|b3 r]; [left; reflexivity|].
  destruct b3; try (left; reflexivity).
  right. now exists r.
Qed.

Lemma run_bom (rest : list byte) :
  run fresh (xef :: xbb :: xbf :: rest) =
  (fst (run fresh rest), BOM :: snd (run fresh rest)).
Proof.
  cbn [run]. change (step fresh (byte_val xef)) with (lead 239).
  cbv [lead Z.leb Z.compare Pos.compare Pos.compare_cont andb Z.eqb Pos.eqb
       Z.land Pos.land].
  cbv [step]. cbn.
  now destruct (run fresh rest).
Qed.

Lemma serialize_first (items : list Z) :
  hd_error items <> Some BOM ->
  snd (serialize false items) = flat_map code_units items.
Proof.
  destruct items as [|c items]; intros H; [reflexivity|].
  cbn [serialize negb andb]. destruct (Z.eqb_spec c BOM) as [->|_].
  - now contradiction H.
  - rewrite serialize_seen. reflexivity.
Qed.

(** The text of [Response.text()] is the text the streaming decoder has
    produced at the end of the body, followed by U+FFFD when the body ends
    inside a sequence. *)
Lemma utf8_decode_stream (bytes : list byte) :
  exists tail,
    (tail = [] \/ tail = [REPLACEMENT]) /\
    utf8_decode bytes = snd (decode new_TextDecoder bytes) ++ tail.
Proof.
  assert (Hflush : forall d, flat_map code_units (flush d) = [] \/
                             flat_map code_units (flush d) = [REPLACEMENT]).
  { intros d. unfold flush. destruct (bytes_needed d =? 0); [left | right];
      reflexivity. }
  unfold utf8_decode, decode. cbn [utf8 BOM_seen new_TextDecoder].
  destruct (strip_bom_cases bytes) as [E | (rest & ->)].
  - rewrite E. destruct (run fresh bytes) as [d items] eqn:R.
    exists (flat_map code_units (flush d)). split; [apply Hflush|].
    assert (Hhd : hd_error items <> Some BOM).
    { intros Hhd. replace items with (snd (run fresh bytes)) in Hhd
        by now rewrite R.
      destruct (first_item_bom _ Hhd) as (rest & ->).
      clear - E. cbn in E.
      apply (f_equal (@length byte)) in E. cbn in E. lia. }
    pose proof (serialize_first _ Hhd) as S.
    destruct (serialize false items) as [b s]. cbn [snd] in *. subst s.
    apply flat_map_app.
  - rewrite run_bom. cbn [strip_bom].
    destruct (run fresh rest) as [d items]. cbn [fst snd serialize negb andb].
    change (BOM =? BOM) with true. cbn iota. rewrite serialize_seen.
    exists (flat_map code_units (flush d)). split; [apply Hflush|].
    cbn [snd]. apply flat_map_app.
Qed.

End Utf8Facts.


(** ** The relay loop *)

Module BridgeFacts.
Import Utf8 Json Bridge Spec JsStringFacts Utf8Facts.

Section Relay.

(** The model id of the request, copied into every chunk. *)
Variable m : jsstring.

Lemma for_parts_app (a b : list jsstring) :
  for_parts m (a ++ b) =
  let (out1, returned1) := for_parts m a in
  if returned1 then (out1, true)
  else let (out2, returned2) := for_parts m b in (out1 ++ out2, returned2).
Proof.
  induction a as [|part a IH]; cbn [for_parts app].
  - now destruct (for_parts m b).
  - destruct (JsString.eqb (substring 6 part) DONE); [reflexivity|].
    rewrite IH. destruct (for_parts m a) as [o1 [|]]; [reflexivity|].
    destruct (for_parts m b) as [o2 r2]. now rewrite app_assoc.
Qed.

(** Two reads relay what one read of the joined chunk relays: a line cut by
    the chunk boundary waits in [buffer], a sequence of bytes cut by it waits
    in [decoder]. *)
Lemma read_loop_join (td : TextDecoder) (buffer : jsstring)
      (a b : list byte) (more : list ReadResult) :
  read_loop m td buffer (Chunk a :: Chunk b :: more) =
  read_loop m td buffer (Chunk (a ++ b) :: more).
Proof.
  cbn [read_loop]. rewrite decode_app.
  destruct (decode td a) as [td1 t1]. destruct (decode td1 b) as [td2 t2].
  unfold pop.
  rewrite (app_assoc buffer t1 t2), (split_lf_app (buffer ++ t1) t2).
  set (parts1 := split [LF] (buffer ++ t1)).
  set (parts2 := split [LF] (last parts1 [] ++ t2)).
  assert (Hne : parts2 <> []) by apply split_go_nonempty.
  rewrite removelast_app, last_app_nonempty by assumption.
  rewrite for_parts_app.
  destruct (for_parts m (removelast parts1)) as [o1 [|]]; [reflexivity|].
  destruct (for_parts m (removelast parts2)) as [o2 [|]]; [reflexivity|].
  now rewrite app_assoc.
Qed.

Lemma read_loop_chunks (c : list byte) (chunks : list (list byte))
      (more : list ReadResult) (td : TextDecoder) (buffer : jsstring) :
  read_loop m td buffer (map Chunk (c :: chunks) ++ more) =
  read_loop m td buffer (Chunk (concat (c :: chunks)) :: more).
Proof.
  revert c td buffer; induction chunks as [|c' chunks IH]; intros c td buffer.
  - simpl. now rewrite app_nil_r.
  - change (map Chunk (c :: c' :: chunks) ++ more)
      with (Chunk c :: (map Chunk (c' :: chunks) ++ more)).
    change (concat (c :: c' :: chunks)) with (c ++ concat (c' :: chunks)).
    rewrite <- read_loop_join.
    cbn [read_loop]. destruct (decode td c) as [td1 t1].
    destruct (pop (split [LF] (buffer ++ t1))) as [parts1 buffer1].
    destruct (for_parts m parts1) as [o1 [|]]; [reflexivity|].
    now rewrite IH.
Qed.

(** However the bytes are cut into chunks, the callback writes what it
    writes when they arrive in one chunk; reads after them continue from
    the same state. *)
Lemma stream_callback_chunks (chunks : list (list byte))
      (more : list ReadResult) :
  stream_callback m (Some (map Chunk chunks ++ more)) =
  stream_callback m (Some (Chunk (concat chunks) :: more)).
Proof.
  destruct chunks as [|c chunks]; [reflexivity|].
  apply read_loop_chunks.
Qed.

(** What is written for a stream read to its end: the relay of the complete
    lines of the decoded text. *)
Lemma stream_callback_lines (chunks : list (list byte)) :
  stream_callback m (graceful chunks) =
  fst (for_parts m (complete_lines (stream_text (concat chunks)))).
Proof.
  unfold graceful. rewrite <- (app_nil_r (map Chunk chunks)).
  rewrite stream_callback_chunks.
  unfold stream_callback, complete_lines, stream_text.
  cbn [read_loop]. destruct (decode new_TextDecoder (concat chunks)) as [td t].
  cbn [snd app]. destruct (pop (split [LF] t)) as [parts buffer]. cbn [fst].
  destruct (for_parts m parts) as [o [|]]; [reflexivity|].
  cbn [fst]. now rewrite app_nil_r.
Qed.

Lemma complete_lines_fragment (t frag : jsstring) :
  no_lf frag -> complete_lines (t ++ frag) = complete_lines t.
Proof.
  intros Hfrag. unfold complete_lines, pop. cbn [fst].
  rewrite split_lf_app, (split_lf_no_lf (last (split [LF] t) [] ++ frag)).
  - rewrite removelast_app by discriminate. apply app_nil_r.
  - apply no_lf_app. split; [apply last_split_no_lf | assumption].
Qed.

Lemma complete_lines_line (l rest : jsstring) :
  no_lf l -> complete_lines (l ++ LF :: rest) = l :: complete_lines rest.
Proof.
  intros Hl. unfold complete_lines, pop. cbn [fst].
  rewrite split_lf_line by assumption.
  pose proof (split_go_nonempty [LF] 0 [] rest) as Hne.
  fold (split [LF] rest) in Hne.
  now destruct (split [LF] rest).
Qed.


Lemma parse_DONE : JSON_parse DONE = None.
Proof. reflexivity. Qed.

Lemma parse_empty : JSON_parse [] = None.
Proof. reflexivity. Qed.

Lemma relay_is_delta (part : jsstring) : Forall is_delta (relay m part).
Proof.
  unfold relay. destruct (JSON_parse part) as [v|]; [|constructor].
  destruct (get v (lit "role")), (get v (lit "message")); repeat constructor.
Qed.



Lemma for_parts_cons (l : jsstring) (rest : list jsstring) :
  ~ sentinel_line l ->
  for_parts m (l :: rest) =
  (relay m (substring 6 l) ++ fst (for_parts m rest),
   snd (for_parts m rest)).
Proof.
  intros Hl. cbn [for_parts].
  destruct (JsString.eqb (substring 6 l) DONE) eqn:E.
  - apply eqb_eq in E. contradiction.
  - now destruct (for_parts m rest).
Qed.

(** Without sentinel every line is relayed and the loop goes on. *)
Lemma for_parts_open (parts : list jsstring) :
  Forall (fun l => ~ sentinel_line l) parts ->
  for_parts m parts =
  (flat_map (fun l => relay m (substring 6 l)) parts, false).
Proof.
  induction 1 as [|l parts Hl _ IH]; [reflexivity|].
  rewrite for_parts_cons, IH by assumption. reflexivity.
Qed.

(** With a sentinel the lines before the first one are relayed, the
    terminal pair is written and the callback returns. *)
Lemma for_parts_sentinel (parts : list jsstring) :
  Exists sentinel_line parts ->
  exists deltas,
    for_parts m parts =
    (deltas ++ [Stringified (stop_chunk m); Literal DONE], true)
    /\ Forall is_delta deltas.
Proof.
  induction parts as [|l parts IH]; intros H; [inversion H|].
  cbn [for_parts]. destruct (JsString.eqb (substring 6 l) DONE) eqn:E.
  - exists []. split; [reflexivity | constructor].
  - assert (Hrest : Exists sentinel_line parts).
    { inversion H as [? ? Hl|]; subst; [|assumption].
      apply eqb_neq in E. contradiction. }
    destruct (IH Hrest) as (deltas & -> & Hd).
    exists (relay m (substring 6 l) ++ deltas). split.
    + now rewrite app_assoc.
    + apply Forall_app. split; [apply relay_is_delta | assumption].
Qed.

Lemma flat_map_relay_is_delta (parts : list jsstring) :
  Forall is_delta (flat_map (fun l => relay m (substring 6 l)) parts).
Proof.
  induction parts as [|l parts IH]; [constructor|].
  cbn [flat_map]. apply Forall_app. split; [apply relay_is_delta | assumption].
Qed.

(** What is relayed for a line is the frame of its payload. *)
Lemma relay_frame (l : jsstring) :
  relay m (substring 6 l) = map (frame_of m) (payloads [l]).
Proof.
  unfold relay, payloads. cbn [flat_map]. rewrite app_nil_r.
  destruct (JSON_parse (substring 6 l)) as [v|]; [|reflexivity].
  destruct v; reflexivity.
Qed.

Lemma relay_frames (lines : list jsstring) :
  flat_map (fun l => relay m (substring 6 l)) lines
  = map (frame_of m) (payloads lines).
Proof.
  induction lines as [|l lines IH]; [reflexivity|].
  cbn [flat_map]. rewrite IH, relay_frame. unfold payloads.
  cbn [flat_map]. now rewrite app_nil_r, map_app.
Qed.



End Relay.

End BridgeFacts.

(** ** The streaming path *)

Module Streaming.
Import Utf8 Json Bridge Spec Inputs JsStringFacts Utf8Facts BridgeFacts.

(** C2.  However a backend byte stream is cut into network chunks, inside a
    line or inside a multi-byte UTF-8 sequence, the streaming path writes
    the same sequence of events as when the whole stream arrives as one
    chunk. *)
Theorem chunking_preserves_events (m : jsstring) (chunks : list (list byte)) :
  stream_callback m (graceful chunks) =
  stream_callback m (graceful [concat chunks]).
Proof.
  unfold graceful. rewrite <- (app_nil_r (map Chunk chunks)).
  apply stream_callback_chunks.
Qed.





(** C6.  A stream that is read to its end without any complete line being
    the sentinel is relayed frame by frame: the events are, in order, the
    frames of the payloads of its complete lines, each carrying the role and
    the text of its payload and [finish_reason] [null]; no stop chunk and no
    literal end marker is written. *)
Theorem close_without_sentinel (m : jsstring) (chunks : list (list byte)) :
  Forall (fun l => ~ sentinel_line l)
         (complete_lines (stream_text (concat chunks))) ->
  stream_callback m (graceful chunks) =
  map (frame_of m) (payloads (complete_lines (stream_text (concat chunks))))
  /\ (forall chunk, In (Stringified chunk) (stream_callback m (graceful chunks))
                    -> finish_reason chunk = None)
  /\ (forall data, ~ In (Literal data) (stream_callback m (graceful chunks))).
Proof.
  intros H. rewrite stream_callback_lines, (for_parts_open m _ H). cbn [fst].
  pose proof (flat_map_relay_is_delta m
                (complete_lines (stream_text (concat chunks)))) as Hd.
  rewrite Forall_forall in Hd.
  split; [apply relay_frames|]. split.
  - intros chunk Hin. exact (Hd _ Hin).
  - intros data Hin. exact (Hd _ Hin).
Qed.

Lemma close_without_sentinel_witness :
  stream_callback gpt (graceful open_stream) =
  [Stringified
     {| id := lit "chatcmpl-duckduck-ai"; object := lit "chat.completion";
        chunk_model := gpt; index := 0;
        delta_role := None; delta_content := Some (JStr (lit "Hi"));
        finish_reason := None; system_fingerprint := None |}]
  /\ (forall chunk,
         In (Stringified chunk) (stream_callback gpt (graceful open_stream))
         -> finish_reason chunk = None)
  /\ (forall data,
         ~ In (Literal data) (stream_callback gpt (graceful open_stream))).
Proof.
  assert (H : Forall (fun l => ~ sentinel_line l)
                     (complete_lines (stream_text (concat open_stream)))).
  { vm_compute. repeat constructor. discriminate. }
  destruct (close_without_sentinel gpt open_stream H) as (E & Hn & Hl).
  split; [rewrite E; reflexivity | split; assumption].
Defined.

(** C10.  At the end of the stream the text after the last line feed is
    dropped: a stream whose decoded text has a further fragment without line
    feed, be it a well-formed frame or the sentinel line, is relayed exactly
    as the stream without that fragment. *)
Theorem final_fragment_discarded (m : jsstring)
        (chunks chunks' : list (list byte)) (frag : jsstring) :
  no_lf frag ->
  stream_text (concat chunks) = stream_text (concat chunks') ++ frag ->
  stream_callback m (graceful chunks) = stream_callback m (graceful chunks').
Proof.
  intros Hfrag E.
  now rewrite !stream_callback_lines, E, complete_lines_fragment.
Qed.

Lemma final_fragment_discarded_witness :
  stream_callback gpt (graceful cut_stream) =
  stream_callback gpt (graceful open_stream).
Proof.
  apply (final_fragment_discarded gpt cut_stream open_stream
           (text_of "data: [DONE]")).
  - vm_compute. intros H.
    repeat (destruct H as [H|H]; [discriminate H|]). exact H.
  - reflexivity.
Defined.

End Streaming.

(** ** The streaming path against the non-streaming path *)

Module Aggregation.
Import Utf8 Json Bridge Spec Inputs JsStringFacts Utf8Facts BridgeFacts.

Lemma framed_cons (f : jsstring) (frames : list jsstring) :
  framed (f :: frames) = f ++ LF :: LF :: framed frames.
Proof. unfold framed. cbn [map concat]. now rewrite <- app_assoc. Qed.

(** A framed text is empty or ends with a line feed. *)
Lemma framed_end (frames : list jsstring) :
  framed frames = [] \/ exists t, framed frames = t ++ [LF].
Proof.
  induction frames as [|f frames IH]; [now left|].
  right. rewrite framed_cons. destruct IH as [-> | (t & ->)].
  - exists (f ++ [LF]). now rewrite <- app_assoc.
  - exists (f ++ LF :: LF :: t). now rewrite <- app_assoc.
Qed.

(** On a framed body both paths work on the same text. *)
Lemma stream_text_framed (bytes : list byte) (frames : list jsstring) :
  utf8_decode bytes = framed frames -> stream_text bytes = framed frames.
Proof.
  intros E. destruct (utf8_decode_stream bytes) as (tail & [-> | ->] & Ht);
    fold (stream_text bytes) in Ht; rewrite E in Ht.
  - now rewrite app_nil_r in Ht.
  - exfalso. destruct (framed_end frames) as [E0 | (t & E0)]; rewrite E0 in Ht.
    + symmetry in Ht. apply app_eq_nil in Ht as [_ Ht]. discriminate.
    + apply app_inj_tail in Ht as [_ Ht]. discriminate.
Qed.

Lemma split_blank_framed (frames : list jsstring) :
  Forall no_lf frames -> split [LF; LF] (framed frames) = frames ++ [[]].
Proof.
  induction 1 as [|f frames Hf _ IH]; [reflexivity|].
  now rewrite framed_cons, split_blank_frame, IH.
Qed.

Lemma complete_lines_framed (frames : list jsstring) :
  Forall no_lf frames ->
  complete_lines (framed frames) = flat_map (fun f => [f; []]) frames.
Proof.
  induction 1 as [|f frames Hf _ IH]; [reflexivity|].
  rewrite framed_cons, complete_lines_line by assumption.
  change (LF :: framed frames) with ([] ++ LF :: framed frames).
  now rewrite complete_lines_line, IH by apply no_lf_nil.
Qed.

Lemma get_null (v : value) (name name' : jsstring) :
  get v name = None -> get v name' = None.
Proof. destruct v; simpl; congruence. Qed.

Lemma get_some (v : value) (name name' : jsstring) (x : option value) :
  get v name = Some x -> exists y, get v name' = Some y.
Proof. destruct v; simpl; try discriminate; eauto. Qed.

(** What a frame whose message is text adds to the aggregated content is
    the text delta of what the streaming path relays for it. *)
Lemma collect_frame (m part acc : jsstring) :
  (forall v, JSON_parse part = Some v -> textual v) ->
  match JSON_parse part with
  | Some parseJson =>
      match append_message acc parseJson with
      | Some acc' => acc'
      | None => acc
      end
  | None => acc
  end = acc ++ streamed_text (relay m part).
Proof.
  intros Ht. unfold relay, append_message, streamed_text.
  destruct (JSON_parse part) as [v|]; [|now rewrite app_nil_r].
  specialize (Ht v eq_refl).
  destruct v; cbn [get textual] in *;
    cbn [flat_map delta_text delta_chunk finish_reason delta_content];
    rewrite ?app_nil_r; try reflexivity.
  destruct (lookup (lit "message") members) as [c|];
    [|now rewrite ?app_nil_r].
  destruct c; try contradiction; now rewrite ?app_nil_r.
Qed.

Lemma collect_framed (m : jsstring) (frames : list jsstring) (acc : jsstring) :
  Forall text_frame frames ->
  collect acc (frames ++ [[]]) =
  acc ++ streamed_text
           (fst (for_parts m (flat_map (fun f => [f; []]) frames))).
Proof.
  intros H. revert acc; induction H as [|f frames Hf _ IH]; intros acc.
  - cbn. now rewrite app_nil_r.
  - cbn [app flat_map collect for_parts].
    destruct (JsString.eqb (substring 6 f) DONE); [now rewrite app_nil_r|].
    change (JsString.eqb (substring 6 []) DONE) with false. cbn iota.
    change (relay m (substring 6 [])) with (@nil SSEData).
    pose proof (collect_frame m (substring 6 f) acc Hf) as Hc.
    destruct (for_parts m _) as [out returned] eqn:E.
    cbn [fst app]. unfold streamed_text in *. rewrite flat_map_app, app_assoc.
    rewrite <- Hc. specialize (IH (match JSON_parse (substring 6 f) with
                                   | Some parseJson =>
                                       match append_message acc parseJson with
                                       | Some acc' => acc'
                                       | None => acc
                                       end
                                   | None => acc
                                   end)).
    cbn [fst] in IH. rewrite <- IH.
    destruct (JSON_parse (substring 6 f)) as [v|]; [|reflexivity].
    now destruct (append_message acc v).
Qed.

(** C1, as the specification states it, fails: on a body whose frames are
    separated by single line feeds the streaming path relays the deltas "a"
    and "b", while the non-streaming path finds a single part that is not
    JSON and aggregates the empty string. *)
Lemma single_lf_streams_differ :
  streamed_text (stream_callback gpt (graceful single_lf_stream))
  <> aggregate (utf8_decode (concat single_lf_stream)).
Proof. vm_compute. discriminate. Qed.

(** C1, amended.  For every body whose text is a sequence of frames without
    line feed, each followed by a blank-line delimiter, and in which the
    message of every JSON payload is text (a string, [null] or absent), and
    however the body is cut into chunks, the text deltas of the events of
    the streaming path, concatenated, are the content the non-streaming path
    aggregates. *)
Theorem blank_line_framed_streams_agree (m : jsstring)
        (chunks : list (list byte)) (frames : list jsstring) :
  Forall no_lf frames ->
  Forall text_frame frames ->
  utf8_decode (concat chunks) = framed frames ->
  streamed_text (stream_callback m (graceful chunks)) =
  aggregate (utf8_decode (concat chunks)).
Proof.
  intros Hframes Htext E.
  rewrite stream_callback_lines, (stream_text_framed _ _ E), E.
  rewrite complete_lines_framed by assumption.
  unfold aggregate. rewrite split_blank_framed by assumption.
  now rewrite (collect_framed m).
Qed.

Lemma blank_line_framed_streams_agree_witness :
  streamed_text (stream_callback gpt (graceful hello_stream)) =
  aggregate (utf8_decode (concat hello_stream))
  /\ aggregate (utf8_decode (concat hello_stream)) = lit "Hello".
Proof.
  split; [|reflexivity].
  apply (blank_line_framed_streams_agree gpt hello_stream
           [text_of "data: {'message':'Hel'}";
            text_of "data: {'message':'lo'}";
            text_of "data: [DONE]"]).
  - repeat constructor; vm_compute; intros H;
      repeat (destruct H as [H|H]; [discriminate H|]); exact H.
  - repeat constructor; intros v Hv; vm_compute in Hv;
      inversion Hv; subst; exact I.
  - reflexivity.
Defined.

End Aggregation.

(** ** Request translation *)

Module Translation.
Import Json Bridge Handler Spec Inputs JsStringFacts.

(** C4.  The translated body copies the model id and maps the messages one
    by one in order: a message of role system appears with role user, any
    other role passes through, the content is unchanged. *)
Theorem request_translation (params : OpenAIRequest) :
  backend_model (requestParams params) = model params
  /\ length (backend_messages (requestParams params))
     = length (messages params)
  /\ forall (i : nat) (message : Message),
       nth_error (messages params) i = Some message ->
       exists out,
         nth_error (backend_messages (requestParams params)) i = Some out
         /\ content out = content message
         /\ (role message = lit "system" -> role out = lit "user")
         /\ (role message <> lit "system" -> role out = role message).
Proof.
  unfold requestParams. cbn [backend_model backend_messages].
  split; [reflexivity|]. split; [apply length_map|].
  intros i message Hi. rewrite nth_error_map, Hi. cbn [option_map].
  eexists. split; [reflexivity|]. cbn [role content].
  destruct (JsString.eqb (role message) (lit "system")) eqn:E.
  - apply eqb_eq in E. split; [reflexivity|].
    split; intros H; [reflexivity | congruence].
  - apply eqb_neq in E. split; [reflexivity|].
    split; intros H; [congruence | reflexivity].
Qed.

Lemma request_translation_witness :
  exists out,
    nth_error (backend_messages (requestParams (json (request None None)))) 0
    = Some out
    /\ content out = lit "Be terse" /\ role out = lit "user".
Proof.
  destruct (request_translation (json (request None None))) as (_ & _ & H).
  destruct (H 0%nat _ eq_refl) as (out & Hn & Hc & Hs & _).
  exists out. repeat split; [exact Hn | exact Hc | exact (Hs eq_refl)].
Defined.

End Translation.

(** ** The handler's failure and success responses *)

Module Responses.
Import Utf8 Json Bridge Handler Spec Inputs MoreInputs JsStringFacts.

(** A chat call in the handler's calls is the call of [chat_with] for the
    translated request, and decides the response. *)
Lemma chat_call_made (env : Env) (backend : Backend) (req : Request)
      (token : jsstring) (request : BackendRequest) :
  In (ChatCall token request) (fst (chat_completions env backend req)) ->
  request = requestParams (json req)
  /\ snd (chat_completions env backend req)
     = snd (chat_with backend (json req) token).
Proof.
  unfold chat_completions.
  destruct (check_apikey env req); [intros []|].
  destruct (falsy (x_vqd_4 req)).
  - destruct (getXcqd4 backend) as [t|]; [|intros [H|[]]; discriminate].
    destruct (falsy t); [intros [H|[]]; discriminate|].
    cbn. intros [H|[H|[]]]; [discriminate|]. now inversion H.
  - cbn. intros [H|[]]. now inversion H.
Qed.

(** C7, as the specification states it, fails: when the backend refuses the
    chat call and its error body cannot be read, the response is 400 with
    the payload [{error: {}}]: [error] is the caught exception, not a
    string, and the payload carries no text of the backend. *)
Lemma unreadable_error_body_is_not_reported :
  exists r,
    snd (chat_completions no_key failing_backend (request None None))
    = Some r
    /\ status r = 400
    /\ payload r = JsonBody (JObj [(lit "error", JObj [])])
    /\ ~ (exists e, member (lit "error") (payload r) = Some (JStr e)).
Proof.
  eexists. split; [reflexivity|]. split; [reflexivity|].
  split; [reflexivity|]. intros (e & H). discriminate H.
Qed.

(** C7, amended.  When the chat call of a request is answered with a
    non-success status, the handler responds 400 without [x-vqd-4] header
    and with a JSON object, not an event stream: when the body of the
    backend response can be read, the object has the constant [error]
    "api request error" and the text of the body as [message]; when reading
    it fails, the object is [{error: {}}]. *)
Theorem backend_failure_is_reported (env : Env) (backend : Backend)
        (req : Request) (token : jsstring) (request : BackendRequest)
        (resp : FetchResponse) :
  In (ChatCall token request) (fst (chat_completions env backend req)) ->
  fetch_chat backend token request = Resolved resp ->
  ok resp = false ->
  snd (chat_completions env backend req) =
  Some {| status := 400; header_x_vqd_4 := None;
          payload :=
            JsonBody
              match text (body resp) with
              | Resolved errorText =>
                  JObj [(lit "error", JStr (lit "api request error"));
                        (lit "message", JStr errorText)]
              | Rejected => JObj [(lit "error", JObj [])]
              end |}.
Proof.
  intros Hcall Hresp Hok.
  destruct (chat_call_made _ _ _ _ _ Hcall) as [-> ->].
  unfold chat_with. cbn [snd]. rewrite Hresp, Hok.
  now destruct (text (body resp)).
Qed.

Lemma backend_failure_is_reported_witness :
  snd (chat_completions no_key refusing_backend (request None (Some true))) =
  Some {| status := 400; header_x_vqd_4 := None;
          payload := JsonBody (JObj [(lit "error",
                                      JStr (lit "api request error"));
                                     (lit "message",
                                      JStr (lit "rate limited"))]) |}.
Proof.
  apply (backend_failure_is_reported no_key refusing_backend
           (request None (Some true)) (lit "fresh")
           (requestParams (json (request None (Some true))))
           {| ok := false; resp_x_vqd_4 := None;
              body := Some [Chunk (bytes "rate limited")] |});
    try reflexivity.
  right. left. reflexivity.
Defined.

(** C8.  A request that passes the API key check, brings no [x-vqd-4]
    header and for which the status call yields no token is answered 400
    with an error object; the only backend call is the status call. *)
Theorem missing_token_fails_before_chat (env : Env) (backend : Backend)
        (req : Request) :
  check_apikey env req = None ->
  falsy (x_vqd_4 req) = true ->
  no_fresh_token backend ->
  exists r e,
    chat_completions env backend req = ([StatusCall], Some r)
    /\ status r = 400
    /\ member (lit "error") (payload r) = Some e.
Proof.
  intros Hkey Hx4 Htoken. unfold chat_completions. rewrite Hkey, Hx4.
  destruct Htoken as [-> | (t & -> & ->)]; eexists; eexists;
    (split; [reflexivity | split; reflexivity]).
Qed.

Lemma missing_token_fails_before_chat_witness :
  exists r e,
    chat_completions no_key tokenless_backend (request None None)
    = ([StatusCall], Some r)
    /\ status r = 400
    /\ member (lit "error") (payload r) = Some e.
Proof.
  apply (missing_token_fails_before_chat no_key tokenless_backend
           (request None None)); try reflexivity.
  right. exists None. split; reflexivity.
Defined.

(** C9, as the specification states it, fails: the caller's token "mine" is
    used for the chat call, the response is 200 and its [x-vqd-4] header is
    "next", the token the backend handed out. *)
Lemma echoed_header_is_not_the_token_used :
  exists token sent r,
    In (ChatCall token sent)
       (fst (chat_completions no_key rotating_backend
                              (request (Some (lit "mine")) None)))
    /\ snd (chat_completions no_key rotating_backend
                             (request (Some (lit "mine")) None)) = Some r
    /\ status r = 200
    /\ header_x_vqd_4 r <> Some token.
Proof.
  eexists; eexists; eexists. split; [left; reflexivity|].
  split; [reflexivity|]. split; [reflexivity|]. discriminate.
Qed.

(** C9, amended.  The 200 response of a non-streaming request carries the
    header [x-vqd-4] whose value is the [x-vqd-4] header of the backend's
    chat response, or the empty string when that response has none. *)
Theorem response_header_is_backend_header (env : Env) (backend : Backend)
        (req : Request) (token : jsstring) (request : BackendRequest)
        (resp : FetchResponse) (r : Response) :
  stream (json req) <> Some true ->
  In (ChatCall token request) (fst (chat_completions env backend req)) ->
  fetch_chat backend token request = Resolved resp ->
  snd (chat_completions env backend req) = Some r ->
  status r = 200 ->
  header_x_vqd_4 r = Some (or_empty (resp_x_vqd_4 resp)).
Proof.
  intros Hstream Hcall Hresp Hr H200.
  destruct (chat_call_made _ _ _ _ _ Hcall) as [-> E]. rewrite E in Hr.
  unfold chat_with in Hr. cbn [snd] in Hr. rewrite Hresp in Hr.
  destruct (ok resp).
  - unfold respond in Hr.
    destruct (stream (json req)) as [[|]|]; [congruence| |];
      (destruct (body resp); [|discriminate];
       destruct (text _); inversion Hr; subst; reflexivity).
  - destruct (text _); inversion Hr; subst; discriminate.
Qed.

Lemma response_header_is_backend_header_witness :
  exists r,
    snd (chat_completions no_key rotating_backend
                          (request (Some (lit "mine")) None)) = Some r
    /\ header_x_vqd_4 r = Some (lit "next").
Proof.
  eexists. split; [reflexivity|].
  apply (response_header_is_backend_header no_key rotating_backend
           (request (Some (lit "mine")) None) (lit "mine")
           (requestParams (json (request (Some (lit "mine")) None)))
           {| ok := true; resp_x_vqd_4 := Some (lit "next");
              body := Some (map Chunk hello_stream) |});
    try reflexivity.
  - discriminate.
  - left. reflexivity.
Defined.

End Responses.

(** ** The model on concrete inputs *)

Module Tests.
Import Utf8 Json Bridge Handler Spec Inputs.

Example split_keeps_empty_pieces :
  split [LF] (text_of "a|b||c") =
  [text_of "a"; text_of "b"; []; text_of "c"].
Proof. reflexivity. Qed.

Example split_matches_do_not_overlap :
  split [LF; LF] (text_of "|||") = [[]; text_of "|"].
Proof. reflexivity. Qed.

Example split_of_the_empty_string : split [LF] [] = [[]].
Proof. reflexivity. Qed.

(** U+00E9 and U+1F600 cut inside their sequences: the decoder waits. *)
Example decode_across_chunks :
  let (td1, s1) := decode new_TextDecoder [x41; xc3] in
  let (td2, s2) := decode td1 [xa9; xf0; x9f] in
  let (_, s3) := decode td2 [x98; x80] in
  (s1, s2, s3) = ([0x41], [0xE9], [0xD83D; 0xDE00]).
Proof. reflexivity. Qed.

Example decode_drops_the_byte_order_mark :
  snd (decode new_TextDecoder [xef; xbb; xbf; x41]) = [0x41]
  /\ utf8_decode [xef; xbb; xbf; x41] = [0x41].
Proof. split; reflexivity. Qed.

Example text_flushes_an_open_sequence :
  utf8_decode [x41; xe2; x82] = [0x41; REPLACEMENT]
  /\ snd (decode new_TextDecoder [x41; xe2; x82]) = [0x41].
Proof. split; reflexivity. Qed.

Example parse_object :
  JSON_parse (text_of "{'role':'assistant', 'message':'Hel'}") =
  Some (JObj [(lit "role", JStr (lit "assistant"));
              (lit "message", JStr (lit "Hel"))]).
Proof. reflexivity. Qed.

Example parse_rejects :
  map JSON_parse
      [text_of ""; text_of "[1,]"; text_of "{'a':1,}"; text_of "01";
       text_of "1."; text_of "nul"; text_of "null x"; text_of "[DONE]";
       text_of "{'a' 1}"; text_of "'a|b'"]
  = repeat None 10.
Proof. reflexivity. Qed.

Example parse_last_member_wins :
  option_map (fun v => get v (lit "message"))
             (JSON_parse (text_of "{'message':'a','message':'b'}"))
  = Some (Some (Some (JStr (lit "b")))).
Proof. reflexivity. Qed.

Example numbers_to_string :
  option_map ToString
    (JSON_parse
       (text_of "[1e21, 1e-7, 0.000001, 123.456, 100, -0, 0.5e1, 12e-1]"))
  = Some (Some (lit "1e+21,1e-7,0.000001,123.456,100,0,5,1.2")).
Proof. reflexivity. Qed.

(** Numbers are binary64: rounding to the nearest value, ties to even,
    overflow to an infinity, underflow to zero, and the shortest digits that
    read back as the same value. *)
Example numbers_are_binary64 :
  option_map ToString
    (JSON_parse
       (text_of "[1e400, -1e400, 9007199254740993, 9007199254740995, "
        ++ text_of "1e23, 5e-324, 1e-324, 0.1, 0.30000000000000004, "
        ++ text_of "18446744073709551616]"))
  = Some (Some (lit "Infinity,-Infinity,9007199254740992,9007199254740996,"
                ++ lit "1e+23,5e-324,0,0.1,0.30000000000000004,"
                ++ lit "18446744073709552000")).
Proof. vm_compute. reflexivity. Qed.

(** A message that is a number is aggregated as its text, and carries no
    text delta in the stream. *)
Example aggregate_of_a_number :
  aggregate (text_of "data: {'message':1e400}||") = lit "Infinity"
  /\ streamed_text
       (stream_callback gpt (graceful [bytes "data: {'message':1e400}||"]))
     = [].
Proof. split; vm_compute; reflexivity. Qed.

Example values_to_string :
  option_map ToString
    (JSON_parse (text_of "[null, true, [1, 'x'], {'a': 1}]"))
  = Some (Some (lit ",true,1,x,[object Object]")).
Proof. reflexivity. Qed.

(** The examples of the specification. *)
Example translate_system_message :
  backend_messages (requestParams (json (request None None))) =
  [ {| role := lit "user"; content := lit "Be terse" |};
    {| role := lit "user"; content := lit "Hi" |} ].
Proof. reflexivity. Qed.

Example aggregate_hello :
  aggregate (utf8_decode (concat hello_stream)) = lit "Hello".
Proof. reflexivity. Qed.

Example stream_hello :
  stream_callback gpt (graceful hello_stream) =
  [Stringified (delta_chunk gpt None (Some (JStr (lit "Hel"))));
   Stringified (delta_chunk gpt None (Some (JStr (lit "lo"))));
   Stringified (stop_chunk gpt);
   Literal DONE].
Proof. reflexivity. Qed.

(** The JSON literal [null] parses, but reading its properties throws
    inside the [try]: nothing is relayed for it. *)
Example relay_null : relay gpt (text_of "null") = [].
Proof. reflexivity. Qed.

Example relay_number :
  relay gpt (text_of "12") = [Stringified (delta_chunk gpt None None)].
Proof. reflexivity. Qed.

Example unauthorized :
  chat_completions {| apikey := Some (lit "secret") |} rotating_backend
    {| Authorization := Some (lit "Bearer wrong"); x_vqd_4 := None;
       json := json (request None None) |}
  = ([], Some (c_json None (error_payload (lit "apikey error")) 401)).
Proof. reflexivity. Qed.

End Tests.

(** ** More on the request translation *)

Module TranslationProperties.
Import Json Bridge Handler Spec Inputs JsStringFacts.

(** X1.  No message of the translated body has the role system. *)
Theorem no_system_role_is_sent (params : OpenAIRequest) :
  Forall (fun message => role message <> lit "system")
         (backend_messages (requestParams params)).
Proof.
  unfold requestParams. cbn [backend_messages].
  apply Forall_map, Forall_forall. intros message _. cbn [role].
  destruct (JsString.eqb (role message) (lit "system")) eqn:E.
  - discriminate.
  - now apply eqb_neq in E.
Qed.

Lemma translate_message_fixed (message : Message) :
  role message <> lit "system" ->
  {| role := if JsString.eqb (role message) (lit "system")
             then lit "user" else role message;
     content := content message |} = message.
Proof.
  intros H. apply eqb_neq in H. rewrite H. now destruct message.
Qed.

(** X2.  Translating a translated body again changes nothing. *)
Theorem translation_is_idempotent (params : OpenAIRequest)
        (s : option bool) :
  requestParams
    {| model := backend_model (requestParams params);
       messages := backend_messages (requestParams params);
       stream := s |}
  = requestParams params.
Proof.
  pose proof (no_system_role_is_sent params) as H.
  unfold requestParams at 1. cbn [model messages].
  destruct (requestParams params) as [bm msgs]. cbn [backend_model
    backend_messages] in *. f_equal.
  induction H as [|message msgs Hm _ IH]; [reflexivity|].
  cbn [map]. now rewrite translate_message_fixed, IH.
Qed.

(** X3.  A request without system message is sent as it is. *)
Theorem request_without_system_is_unchanged (params : OpenAIRequest) :
  Forall (fun message => role message <> lit "system") (messages params) ->
  backend_messages (requestParams params) = messages params.
Proof.
  intros H. unfold requestParams. cbn [backend_messages].
  induction H as [|message msgs Hm _ IH]; [reflexivity|].
  cbn [map]. now rewrite translate_message_fixed, IH.
Qed.

Lemma request_without_system_is_unchanged_witness :
  backend_messages
    (requestParams {| model := gpt;
                      messages := [ {| role := lit "user";
                                       content := lit "Hi" |};
                                    {| role := lit "assistant";
                                       content := lit "Hello" |} ];
                      stream := None |})
  = [ {| role := lit "user"; content := lit "Hi" |};
      {| role := lit "assistant"; content := lit "Hello" |} ].
Proof.
  apply (request_without_system_is_unchanged
           {| model := gpt;
              messages := [ {| role := lit "user"; content := lit "Hi" |};
                            {| role := lit "assistant";
                               content := lit "Hello" |} ];
              stream := None |}).
  repeat constructor; discriminate.
Defined.

End TranslationProperties.

(** ** The API key check and the backend calls *)

Module HandlerProperties.
Import Utf8 Json Bridge Handler Wire Spec Notions Inputs MoreInputs.
Import JsStringFacts BridgeFacts.

#[local] Arguments substring : simpl never.

(** X4.  A request passes the API key check exactly when no key is
    configured (absent or empty), or its [Authorization] header is not empty
    and equals the key from index 7 on. *)
Theorem api_key_check (env : Env) (req : Request) :
  check_apikey env req = None <->
  falsy (apikey env) = true
  \/ exists a, Authorization req = Some a /\ a <> []
               /\ apikey env = Some (substring 7 a).
Proof.
  unfold check_apikey. destruct (apikey env) as [[|k key]|] eqn:Ek;
    cbn [falsy].
  - tauto.
  - destruct (Authorization req) as [[|c a]|].
    + split; [discriminate | intros [H|(a & H & Hne & _)]; congruence].
    + destruct (JsString.eqb (k :: key) (substring 7 (c :: a))) eqn:E.
      * apply eqb_eq in E. split; [|reflexivity]. intros _. right.
        exists (c :: a). rewrite E. repeat split. discriminate.
      * apply eqb_neq in E. split; [discriminate|].
        intros [H|(a' & H & _ & H')]; [discriminate|].
        inversion H; subst a'. congruence.
    + split; [discriminate | intros [H|(a & H & _)]; discriminate].
  - tauto.
Qed.

Lemma api_key_check_witness :
  check_apikey keyed (authorized (lit "Bearer secret") None) = None.
Proof.
  apply (api_key_check keyed (authorized (lit "Bearer secret") None)).
  right. exists (lit "Bearer secret"). repeat split. discriminate.
Defined.

(** X5.  With a key configured, a request without [Authorization] header or
    with one that differs from the key from index 7 on is answered 401, and
    no backend call is made. *)
Theorem unauthorized_request_is_rejected (env : Env) (backend : Backend)
        (req : Request) (key : jsstring) :
  apikey env = Some key -> key <> [] ->
  (forall a, Authorization req = Some a -> substring 7 a <> key) ->
  exists r,
    chat_completions env backend req = ([], Some r)
    /\ status r = 401 /\ header_x_vqd_4 r = None.
Proof.
  intros Hk Hne Hauth. unfold chat_completions, check_apikey. rewrite Hk.
  destruct key as [|k key]; [congruence|].
  destruct (Authorization req) as [[|c a]|];
    try (eexists; repeat split; reflexivity).
  destruct (JsString.eqb (k :: key) (substring 7 (c :: a))) eqn:E.
  - apply eqb_eq in E. exfalso. apply (Hauth (c :: a)); congruence.
  - eexists; repeat split; reflexivity.
Qed.

Lemma unauthorized_request_is_rejected_witness :
  exists r,
    chat_completions keyed rotating_backend
                     (authorized (lit "Bearer wrong") None) = ([], Some r)
    /\ status r = 401 /\ header_x_vqd_4 r = None.
Proof.
  apply (unauthorized_request_is_rejected keyed rotating_backend
           (authorized (lit "Bearer wrong") None) (lit "secret"));
    [reflexivity | discriminate |].
  intros a H. inversion H. discriminate.
Defined.

(** X6.  The first seven code units of the [Authorization] header are not
    looked at: two requests whose non-empty headers agree from index 7 on
    are answered alike. *)
Theorem authorization_scheme_is_not_checked (env : Env) (backend : Backend)
        (a1 a2 : jsstring) (token : option jsstring) (params : OpenAIRequest) :
  a1 <> [] -> a2 <> [] -> substring 7 a1 = substring 7 a2 ->
  chat_completions env backend
    {| Authorization := Some a1; x_vqd_4 := token; json := params |}
  = chat_completions env backend
      {| Authorization := Some a2; x_vqd_4 := token; json := params |}.
Proof.
  intros H1 H2 E. unfold chat_completions, check_apikey.
  cbn [Authorization x_vqd_4 json].
  destruct a1; [congruence|]. destruct a2; [congruence|]. now rewrite E.
Qed.

Lemma authorization_scheme_is_not_checked_witness :
  chat_completions keyed rotating_backend
                   (authorized (lit "Bearer secret") None)
  = chat_completions keyed rotating_backend
                     (authorized (lit "0123456secret") None).
Proof.
  apply (authorization_scheme_is_not_checked keyed rotating_backend
           (lit "Bearer secret") (lit "0123456secret") None
           (json (request None None)));
    [discriminate | discriminate | reflexivity].
Defined.

Lemma falsy_or_empty (s : option jsstring) :
  falsy s = false -> or_empty s <> [].
Proof. destruct s as [[|c s]|]; cbn; congruence. Qed.

(** X7.  The backend is called at most twice: at most one status call, then
    at most one chat call, which carries a non-empty token and the
    translated request. *)
Theorem backend_calls (env : Env) (backend : Backend) (req : Request) :
  let calls := fst (chat_completions env backend req) in
  calls = [] \/ calls = [StatusCall]
  \/ exists token,
       token <> []
       /\ (calls = [ChatCall token (requestParams (json req))]
           \/ calls = [StatusCall;
                       ChatCall token (requestParams (json req))]).
Proof.
  unfold chat_completions. destruct (check_apikey env req); [now left|].
  destruct (falsy (x_vqd_4 req)) eqn:Ex.
  - destruct (getXcqd4 backend) as [t|]; [|right; now left].
    destruct (falsy t) eqn:Et; [right; now left|].
    right; right. exists (or_empty t).
    split; [now apply falsy_or_empty | right; reflexivity].
  - right; right. exists (or_empty (x_vqd_4 req)).
    split; [now apply falsy_or_empty | left; reflexivity].
Qed.

(** X8.  A token brought by the caller is passed to the chat call as it is,
    and no status call is made. *)
Theorem caller_token_is_passed_through (env : Env) (backend : Backend)
        (req : Request) (token : jsstring) :
  check_apikey env req = None ->
  x_vqd_4 req = Some token -> token <> [] ->
  fst (chat_completions env backend req)
  = [ChatCall token (requestParams (json req))].
Proof.
  intros Hk Hx Hne. unfold chat_completions. rewrite Hk, Hx.
  destruct token; [congruence | reflexivity].
Qed.

Lemma caller_token_is_passed_through_witness :
  fst (chat_completions no_key rotating_backend
                        (request (Some (lit "mine")) None))
  = [ChatCall (lit "mine")
              (requestParams (json (request (Some (lit "mine")) None)))].
Proof.
  apply (caller_token_is_passed_through no_key rotating_backend
           (request (Some (lit "mine")) None) (lit "mine"));
    [reflexivity | reflexivity | discriminate].
Defined.

(** X9.  Without a token from the caller (no header, or an empty one), the
    token of the status response is the one the chat call carries. *)
Theorem fresh_token_is_used (env : Env) (backend : Backend)
        (req : Request) (token : jsstring) :
  check_apikey env req = None ->
  falsy (x_vqd_4 req) = true ->
  getXcqd4 backend = Resolved (Some token) -> token <> [] ->
  fst (chat_completions env backend req)
  = [StatusCall; ChatCall token (requestParams (json req))].
Proof.
  intros Hk Hx Ht Hne. unfold chat_completions. rewrite Hk, Hx, Ht.
  destruct token; [congruence | reflexivity].
Qed.

Lemma fresh_token_is_used_witness :
  fst (chat_completions no_key rotating_backend
                        (request (Some []) None))
  = [StatusCall;
     ChatCall (lit "fresh")
              (requestParams (json (request (Some []) None)))].
Proof.
  apply (fresh_token_is_used no_key rotating_backend
           (request (Some []) None) (lit "fresh"));
    [reflexivity | reflexivity | reflexivity | discriminate].
Defined.

(** A chat call in the calls decides the response (as in [Responses]). *)
Lemma response_of_chat_call (env : Env) (backend : Backend) (req : Request)
      (token : jsstring) (sent : BackendRequest) :
  In (ChatCall token sent) (fst (chat_completions env backend req)) ->
  sent = requestParams (json req)
  /\ snd (chat_completions env backend req)
     = snd (chat_with backend (json req) token).
Proof.
  unfold chat_completions.
  destruct (check_apikey env req); [intros []|].
  destruct (falsy (x_vqd_4 req)).
  - destruct (getXcqd4 backend) as [t|]; [|intros [H|[]]; discriminate].
    destruct (falsy t); [intros [H|[]]; discriminate|].
    cbn. intros [H|[H|[]]]; [discriminate|]. now inversion H.
  - cbn. intros [H|[]]. now inversion H.
Qed.

(** Without chat call the response is a 400 or a 401. *)
Lemma response_without_chat_call (env : Env) (backend : Backend)
      (req : Request) :
  (forall token sent,
      ~ In (ChatCall token sent) (fst (chat_completions env backend req))) ->
  exists r, snd (chat_completions env backend req) = Some r
            /\ (status r = 400 \/ status r = 401)
            /\ header_x_vqd_4 r = None.
Proof.
  unfold chat_completions, check_apikey.
  destruct (apikey env) as [[|k key]|].
  2: destruct (Authorization req) as [[|c a]|];
       [eexists; cbn; now eauto
       | destruct (JsString.eqb (k :: key) (substring 7 (c :: a)));
         [|eexists; cbn; now eauto]
       | eexists; cbn; now eauto].
  all: destruct (falsy (x_vqd_4 req));
    [destruct (getXcqd4 backend) as [t|];
       [destruct (falsy t); [eexists; cbn; now eauto|]
       | eexists; cbn; now eauto]
    |];
    intros H; exfalso; cbn in H; eapply H; eauto.
Qed.

(** X10.  When the chat call itself fails, the response is 400 with the
    caught error as its [error], and carries no [x-vqd-4] header. *)
Theorem failed_chat_call_is_reported (env : Env) (backend : Backend)
        (req : Request) (token : jsstring) (sent : BackendRequest) :
  In (ChatCall token sent) (fst (chat_completions env backend req)) ->
  fetch_chat backend token sent = Rejected ->
  snd (chat_completions env backend req)
  = Some {| status := 400; header_x_vqd_4 := None;
            payload := JsonBody (JObj [(lit "error", JObj [])]) |}.
Proof.
  intros Hcall Hresp.
  destruct (response_of_chat_call _ _ _ _ _ Hcall) as [-> ->].
  unfold chat_with. cbn [snd]. now rewrite Hresp.
Qed.

Lemma failed_chat_call_is_reported_witness :
  snd (chat_completions no_key unreachable_backend (request None None))
  = Some {| status := 400; header_x_vqd_4 := None;
            payload := JsonBody (JObj [(lit "error", JObj [])]) |}.
Proof.
  apply (failed_chat_call_is_reported no_key unreachable_backend
           (request None None) (lit "fresh")
           (requestParams (json (request None None))));
    [right; left; reflexivity | reflexivity].
Defined.

Lemma chat_call_or_not (env : Env) (backend : Backend) (req : Request) :
  (exists token,
      In (ChatCall token (requestParams (json req)))
         (fst (chat_completions env backend req)))
  \/ (forall token sent,
         ~ In (ChatCall token sent) (fst (chat_completions env backend req))).
Proof.
  unfold chat_completions. destruct (check_apikey env req); [right; now cbn|].
  destruct (falsy (x_vqd_4 req)).
  - destruct (getXcqd4 backend) as [t|];
      [|right; intros ? ? [H|[]]; discriminate].
    destruct (falsy t); [right; intros ? ? [H|[]]; discriminate|].
    left. exists (or_empty t). right. now left.
  - left. exists (or_empty (x_vqd_4 req)). now left.
Qed.

Lemma respond_status (params : OpenAIRequest) (resp : FetchResponse)
      (r : Response) :
  respond params resp = Some r ->
  (status r = 200 \/ status r = 400)
  /\ header_x_vqd_4 r = Some (or_empty (resp_x_vqd_4 resp)).
Proof.
  unfold respond.
  destruct (stream params) as [[|]|];
    try (destruct (body resp); [|discriminate]; destruct (text _));
    intros H; inversion H; subst; cbn; auto.
Qed.

Lemma chat_with_status (backend : Backend) (params : OpenAIRequest)
      (x4 : jsstring) (r : Response) :
  snd (chat_with backend params x4) = Some r ->
  status r = 400
  \/ status r = 200
     /\ exists resp, fetch_chat backend x4 (requestParams params)
                     = Resolved resp /\ ok resp = true.
Proof.
  unfold chat_with. cbn [snd].
  destruct (fetch_chat backend x4 (requestParams params)) as [resp|];
    [|intros H; inversion H; now left].
  destruct (ok resp) eqn:Eok.
  - intros H. destruct (respond_status _ _ _ H) as [[H2|H4] _];
      [right; eauto | now left].
  - destruct (text _); intros H; inversion H; now left.
Qed.

(** X11.  Every response of the handler has status 200, 400 or 401. *)
Theorem response_status (env : Env) (backend : Backend) (req : Request)
        (r : Response) :
  snd (chat_completions env backend req) = Some r ->
  status r = 200 \/ status r = 400 \/ status r = 401.
Proof.
  intros Hr. destruct (chat_call_or_not env backend req) as [(t & Hc) | Hno].
  - destruct (response_of_chat_call _ _ _ _ _ Hc) as [_ E]. rewrite E in Hr.
    destruct (chat_with_status _ _ _ _ Hr) as [H | [H _]]; auto.
  - destruct (response_without_chat_call _ _ _ Hno) as (r' & E & H & _).
    rewrite E in Hr. inversion Hr; subst. tauto.
Qed.

Lemma response_status_witness :
  status (c_json None (error_payload (lit "x-xqd-4 get error")) 400) = 200
  \/ status (c_json None (error_payload (lit "x-xqd-4 get error")) 400) = 400
  \/ status (c_json None (error_payload (lit "x-xqd-4 get error")) 400) = 401.
Proof.
  apply (response_status no_key tokenless_backend (request None None)).
  reflexivity.
Defined.

(** X12.  A 200 response is given only after a chat call that the backend
    answered with a success status. *)
Theorem success_needs_backend_success (env : Env) (backend : Backend)
        (req : Request) (r : Response) :
  snd (chat_completions env backend req) = Some r ->
  status r = 200 ->
  exists token resp,
    In (ChatCall token (requestParams (json req)))
       (fst (chat_completions env backend req))
    /\ fetch_chat backend token (requestParams (json req)) = Resolved resp
    /\ ok resp = true.
Proof.
  intros Hr H200.
  destruct (chat_call_or_not env backend req) as [(t & Hc) | Hno].
  - destruct (response_of_chat_call _ _ _ _ _ Hc) as [_ E]. rewrite E in Hr.
    destruct (chat_with_status _ _ _ _ Hr) as [H | (_ & resp & H1 & H2)];
      [congruence|]. now exists t, resp.
  - destruct (response_without_chat_call _ _ _ Hno) as (r' & E & H & _).
    rewrite E in Hr. inversion Hr; subst. destruct H; congruence.
Qed.

Lemma success_needs_backend_success_witness :
  exists token resp,
    In (ChatCall token
                 (requestParams (json (request (Some (lit "mine")) None))))
       (fst (chat_completions no_key rotating_backend
                              (request (Some (lit "mine")) None)))
    /\ fetch_chat rotating_backend token
         (requestParams (json (request (Some (lit "mine")) None)))
       = Resolved resp
    /\ ok resp = true.
Proof.
  apply (success_needs_backend_success no_key rotating_backend
           (request (Some (lit "mine")) None)
           (c_json (Some (lit "next")) (completion gpt (lit "Hello")) 200));
    reflexivity.
Defined.

(** X13.  The handler returns no response exactly when the chat call was
    answered with a success status and no body, and the request did not ask
    for a stream. *)
Theorem handler_returns_nothing (env : Env) (backend : Backend)
        (req : Request) :
  snd (chat_completions env backend req) = None <->
  exists token resp,
    In (ChatCall token (requestParams (json req)))
       (fst (chat_completions env backend req))
    /\ fetch_chat backend token (requestParams (json req)) = Resolved resp
    /\ ok resp = true
    /\ stream (json req) <> Some true
    /\ body resp = None.
Proof.
  split.
  - intros Hr. destruct (chat_call_or_not env backend req) as [(t & Hc) | Hno].
    + destruct (response_of_chat_call _ _ _ _ _ Hc) as [_ E].
      rewrite E in Hr. unfold chat_with in Hr. cbn [snd] in Hr.
      destruct (fetch_chat backend t (requestParams (json req)))
        as [resp|] eqn:Ef; [|discriminate].
      destruct (ok resp) eqn:Eok; [|destruct (text _); discriminate].
      exists t, resp. repeat split; try assumption.
      * intros Es. unfold respond in Hr. rewrite Es in Hr. discriminate.
      * unfold respond in Hr.
        destruct (stream (json req)) as [[|]|]; try discriminate;
          (destruct (body resp); [destruct (text _); discriminate
                                 | reflexivity]).
    + destruct (response_without_chat_call _ _ _ Hno) as (r' & E & _).
      congruence.
  - intros (t & resp & Hc & Ef & Eok & Es & Eb).
    destruct (response_of_chat_call _ _ _ _ _ Hc) as [_ ->].
    unfold chat_with. cbn [snd]. rewrite Ef, Eok. unfold respond. rewrite Eb.
    destruct (stream (json req)) as [[|]|]; congruence.
Qed.

Lemma handler_returns_nothing_witness :
  snd (chat_completions no_key bodiless_backend (request None None)) = None.
Proof.
  apply (handler_returns_nothing no_key bodiless_backend
           (request None None)).
  exists (lit "fresh"),
         {| ok := true; resp_x_vqd_4 := None; body := None |}.
  repeat split; [right; left; reflexivity | discriminate].
Defined.

(** X14.  When reading the body of a successful, non-streamed chat
    response fails, the response is 400 with the caught error, and it
    carries the [x-vqd-4] header of the backend response, which was set
    before the body was read. *)
Theorem body_failure_keeps_header (env : Env) (backend : Backend)
        (req : Request) (token : jsstring) (sent : BackendRequest)
        (resp : FetchResponse) (reads : list ReadResult) :
  In (ChatCall token sent) (fst (chat_completions env backend req)) ->
  fetch_chat backend token sent = Resolved resp ->
  ok resp = true ->
  stream (json req) <> Some true ->
  body resp = Some reads -> read_all reads = None ->
  snd (chat_completions env backend req)
  = Some {| status := 400;
            header_x_vqd_4 := Some (or_empty (resp_x_vqd_4 resp));
            payload := JsonBody (JObj [(lit "error", JObj [])]) |}.
Proof.
  intros Hc Ef Eok Es Eb Er.
  destruct (response_of_chat_call _ _ _ _ _ Hc) as [-> ->].
  unfold chat_with. cbn [snd]. rewrite Ef, Eok. unfold respond, text.
  rewrite Eb, Er.
  destruct (stream (json req)) as [[|]|]; [congruence | | ]; reflexivity.
Qed.

Lemma body_failure_keeps_header_witness :
  snd (chat_completions no_key breaking_backend (request None None))
  = Some {| status := 400; header_x_vqd_4 := Some (lit "next");
            payload := JsonBody (JObj [(lit "error", JObj [])]) |}.
Proof.
  apply (body_failure_keeps_header no_key breaking_backend
           (request None None) (lit "fresh")
           (requestParams (json (request None None)))
           {| ok := true; resp_x_vqd_4 := Some (lit "next");
              body := Some [Chunk (bytes "data: {'message':'Hi'}|");
                            ReadError] |}
           [Chunk (bytes "data: {'message':'Hi'}|"); ReadError]);
    try reflexivity; [right; left; reflexivity | discriminate].
Defined.

Lemma read_all_chunks (chunks : list (list byte)) :
  read_all (map Chunk chunks) = Some (concat chunks).
Proof.
  induction chunks as [|c chunks IH]; [reflexivity|].
  cbn [map read_all concat]. now rewrite IH.
Qed.

(** X15.  The response to a successful chat call does not depend on how the
    body arrives in chunks, streamed or not. *)
Theorem response_ignores_chunking (params : OpenAIRequest)
        (o : bool) (h : option jsstring) (chunks : list (list byte)) :
  respond params {| ok := o; resp_x_vqd_4 := h; body := graceful chunks |}
  = respond params {| ok := o; resp_x_vqd_4 := h;
                      body := graceful [concat chunks] |}.
Proof.
  unfold respond, text, graceful. cbn [body resp_x_vqd_4].
  rewrite !read_all_chunks. cbn [concat]. rewrite app_nil_r.
  destruct (stream params) as [[|]|]; try reflexivity.
  do 3 f_equal. rewrite <- (app_nil_r (map Chunk chunks)).
  apply stream_callback_chunks.
Qed.

(** X16.  The chat call's headers carry the token under [x-vqd-4], which no
    fixed header replaces, and every fixed header with its value. *)
Theorem chat_headers_carry_token (x4 : jsstring) :
  lookup (lit "x-vqd-4") (chat_headers x4) = Some (JStr x4)
  /\ Forall (fun h => lookup (fst h) (chat_headers x4) = Some (snd h))
            headers.
Proof.
  split; [reflexivity|]. repeat constructor.
Qed.

End HandlerProperties.

(** ** More on the relay loop *)

Module RelayProperties.
Import Utf8 Json Bridge LoopState Spec Notions Inputs MoreInputs.
Import JsStringFacts Utf8Facts BridgeFacts.

#[local] Arguments substring : simpl never.

Section Relay.

Variable m : jsstring.

Let terminal : list SSEData := [Stringified (stop_chunk m); Literal DONE].

Lemma for_parts_shape (parts : list jsstring) :
  exists deltas,
    Forall is_delta deltas
    /\ (for_parts m parts = (deltas, false)
        \/ for_parts m parts = (deltas ++ terminal, true)).
Proof.
  induction parts as [|l parts (deltas & Hd & IH)].
  - exists []. split; [constructor | now left].
  - cbn [for_parts]. destruct (JsString.eqb (substring 6 l) DONE).
    + exists []. split; [constructor | now right].
    + exists (relay m (substring 6 l) ++ deltas).
      split; [apply Forall_app; split; [apply relay_is_delta | assumption]|].
      destruct IH as [-> | ->]; [now left | right; now rewrite app_assoc].
Qed.

Lemma read_loop_shape (reads : list ReadResult) (td : TextDecoder)
      (buffer : jsstring) :
  exists deltas,
    Forall is_delta deltas
    /\ (read_loop m td buffer reads = deltas
        \/ read_loop m td buffer reads = deltas ++ terminal).
Proof.
  revert td buffer; induction reads as [|[value|] reads IH]; intros td buffer;
    try (exists []; split; [constructor | now left]).
  cbn [read_loop]. destruct (decode td value) as [td' text].
  destruct (pop (split [LF] (buffer ++ text))) as [parts buffer'].
  destruct (for_parts_shape parts) as (d1 & H1 & [-> | ->]).
  - destruct (IH td' buffer') as (d2 & H2 & [-> | ->]); exists (d1 ++ d2);
      (split; [apply Forall_app; now split|]);
      [now left | right; now rewrite app_assoc].
  - exists d1. split; [assumption | now right].
Qed.

(** X17.  Whatever the body yields, chunks or a read error, the events are
    chunks relaying frames, followed by nothing or by exactly the terminal
    pair: a stop chunk is never written without the end marker after it, and
    nothing is written after the end marker. *)
Theorem events_shape (body : option (list ReadResult)) :
  exists deltas,
    Forall is_delta deltas
    /\ (stream_callback m body = deltas
        \/ stream_callback m body
           = deltas ++ [Stringified (stop_chunk m); Literal DONE]).
Proof.
  destruct body as [reads|]; [apply read_loop_shape|].
  exists []. split; [constructor | now left].
Qed.

Lemma read_loop_prefix (reads more : list ReadResult) (td : TextDecoder)
      (buffer : jsstring) :
  exists tail,
    read_loop m td buffer (reads ++ more)
    = read_loop m td buffer reads ++ tail.
Proof.
  revert td buffer; induction reads as [|[value|] reads IH]; intros td buffer.
  - now exists (read_loop m td buffer more).
  - cbn [app read_loop]. destruct (decode td value) as [td' text].
    destruct (pop (split [LF] (buffer ++ text))) as [parts buffer'].
    destruct (for_parts m parts) as [out [|]].
    + exists []. now rewrite app_nil_r.
    + destruct (IH td' buffer') as (tail & ->). exists tail.
      now rewrite app_assoc.
  - now exists [].
Qed.

(** X18.  Events once written stay: what is written for a body is the
    beginning of what is written for any body that starts with the same
    reads. *)
Theorem events_only_grow (reads more : list ReadResult) :
  exists tail,
    stream_callback m (Some (reads ++ more))
    = stream_callback m (Some reads) ++ tail.
Proof. apply read_loop_prefix. Qed.

Lemma read_loop_error (chunks : list (list byte)) (rest : list ReadResult)
      (td : TextDecoder) (buffer : jsstring) :
  read_loop m td buffer (map Chunk chunks ++ ReadError :: rest)
  = read_loop m td buffer (map Chunk chunks).
Proof.
  revert td buffer; induction chunks as [|c chunks IH]; intros td buffer;
    [reflexivity|].
  cbn [map app read_loop]. destruct (decode td c) as [td' text].
  destruct (pop (split [LF] (buffer ++ text))) as [parts buffer'].
  destruct (for_parts m parts) as [out [|]]; [reflexivity|].
  now rewrite IH.
Qed.

(** X19.  A read that fails ends the stream where it is: the events are
    those of the chunks read before it, with no terminal pair added and
    whatever the body would have yielded afterwards. *)
Theorem read_error_ends_stream (chunks : list (list byte))
        (rest : list ReadResult) :
  stream_callback m (Some (map Chunk chunks ++ ReadError :: rest))
  = stream_callback m (graceful chunks).
Proof. apply read_loop_error. Qed.

Lemma relay_event_of (part : jsstring) : Forall (event_of m) (relay m part).
Proof.
  unfold relay. destruct (JSON_parse part) as [v|]; [|constructor].
  destruct (get v (lit "role")), (get v (lit "message"));
    repeat constructor.
Qed.

Lemma for_parts_event_of (parts : list jsstring) :
  Forall (event_of m) (fst (for_parts m parts)).
Proof.
  induction parts as [|l parts IH]; [constructor|].
  cbn [for_parts]. destruct (JsString.eqb (substring 6 l) DONE).
  - repeat constructor.
  - destruct (for_parts m parts) as [out r]. cbn [fst] in *.
    apply Forall_app. split; [apply relay_event_of | assumption].
Qed.

Lemma read_loop_event_of (reads : list ReadResult) (td : TextDecoder)
      (buffer : jsstring) :
  Forall (event_of m) (read_loop m td buffer reads).
Proof.
  revert td buffer; induction reads as [|[value|] reads IH]; intros td buffer;
    try constructor.
  cbn [read_loop]. destruct (decode td value) as [td' text].
  destruct (pop (split [LF] (buffer ++ text))) as [parts buffer'].
  pose proof (for_parts_event_of parts) as H.
  destruct (for_parts m parts) as [out [|]]; cbn [fst] in H; [assumption|].
  apply Forall_app. split; [assumption | apply IH].
Qed.

(** X20.  Every event is the literal end marker or a [chat.completion]
    chunk of index 0 that carries the model id of the request. *)
Theorem events_carry_model (body : option (list ReadResult)) :
  Forall (event_of m) (stream_callback m body).
Proof.
  destruct body as [reads|]; [apply read_loop_event_of | constructor].
Qed.

Lemma short_line (l : jsstring) :
  (6 <? length l)%nat = false -> substring 6 l = [].
Proof.
  intros H. apply Nat.ltb_ge in H. unfold substring. now apply skipn_all2.
Qed.

Lemma for_parts_long_lines (parts : list jsstring) :
  for_parts m (filter (fun l => (6 <? length l)%nat) parts)
  = for_parts m parts.
Proof.
  induction parts as [|l parts IH]; [reflexivity|].
  cbn [filter]. destruct (6 <? length l)%nat eqn:E.
  - cbn [for_parts]. now rewrite IH.
  - cbn [for_parts]. rewrite (short_line _ E).
    change (JsString.eqb [] DONE) with false. cbn iota.
    change (relay m []) with (@nil SSEData).
    rewrite IH. now destruct (for_parts m parts).
Qed.

(** X21.  Lines of at most six code units, blank lines among them, write
    nothing and stop nothing: the events are those of the longer lines. *)
Theorem short_lines_are_dropped (chunks : list (list byte)) :
  stream_callback m (graceful chunks)
  = fst (for_parts m
           (filter (fun l => (6 <? length l)%nat)
                   (complete_lines (stream_text (concat chunks))))).
Proof. now rewrite for_parts_long_lines, stream_callback_lines. Qed.

(** X22.  A line whose payload is JSON but not an object is relayed as a
    chunk with an empty delta, except for the literal null, for which
    nothing is written. *)
Theorem relay_of_non_object (part : jsstring) (v : value) :
  JSON_parse part = Some v ->
  (forall ms, v <> JObj ms) ->
  relay m part
  = match v with
    | JNull => []
    | _ => [Stringified (delta_chunk m None None)]
    end.
Proof.
  intros P Hv. unfold relay. rewrite P.
  destruct v; try reflexivity. now contradiction (Hv members).
Qed.

Lemma for_parts_suffixes (parts parts' : list jsstring) :
  map (substring 6) parts = map (substring 6) parts' ->
  for_parts m parts = for_parts m parts'.
Proof.
  revert parts'; induction parts as [|l parts IH]; intros [|l' parts'] E;
    try discriminate; [reflexivity|].
  cbn [map] in E. injection E as El E. cbn [for_parts].
  now rewrite El, (IH _ E).
Qed.

(** X23.  The first six code units of a line are not looked at: two streams
    whose complete lines agree from index 6 on are relayed alike. *)
Theorem line_prefix_is_not_checked (chunks chunks' : list (list byte)) :
  map (substring 6) (complete_lines (stream_text (concat chunks)))
  = map (substring 6) (complete_lines (stream_text (concat chunks'))) ->
  stream_callback m (graceful chunks) = stream_callback m (graceful chunks').
Proof.
  intros E. rewrite !stream_callback_lines. f_equal.
  now apply for_parts_suffixes.
Qed.

Lemma state_after_text (chunks : list (list byte)) (td : TextDecoder)
      (buffer : jsstring) :
  no_lf buffer ->
  state_after td buffer chunks
  = (fst (decode td (concat chunks)),
     last (split [LF] (buffer ++ snd (decode td (concat chunks)))) []).
Proof.
  revert td buffer; induction chunks as [|c chunks IH]; intros td buffer Hb.
  - cbn [state_after concat]. rewrite decode_nil. cbn [fst snd].
    now rewrite app_nil_r, split_lf_no_lf.
  - cbn [state_after concat]. rewrite decode_app.
    destruct (decode td c) as [td1 t1]. unfold pop.
    rewrite IH by apply last_split_no_lf.
    destruct (decode td1 (concat chunks)) as [td2 t2]. cbn [fst snd].
    rewrite (app_assoc buffer t1 t2), (split_lf_app (buffer ++ t1) t2).
    rewrite last_app_nonempty by apply split_go_nonempty. reflexivity.
Qed.

(** X24.  Between reads [buffer] holds exactly the text decoded so far
    after its last line feed, and so no line feed. *)
Theorem buffer_holds_open_line (chunks : list (list byte)) :
  snd (state_after new_TextDecoder [] chunks)
  = snd (pop (split [LF] (stream_text (concat chunks))))
  /\ no_lf (snd (state_after new_TextDecoder [] chunks)).
Proof.
  rewrite state_after_text by apply no_lf_nil. cbn [snd app].
  split; [reflexivity | apply last_split_no_lf].
Qed.

(** X25.  After chunks without sentinel line the loop goes on from that
    state: the events of a longer body are the events of these chunks, then
    those of the further reads from [decoder] and [buffer] as the chunks
    left them. *)
Theorem relay_resumes_from_state (chunks : list (list byte))
        (more : list ReadResult) :
  Forall (fun l => ~ sentinel_line l)
         (complete_lines (stream_text (concat chunks))) ->
  stream_callback m (Some (map Chunk chunks ++ more))
  = stream_callback m (graceful chunks)
    ++ read_loop m (fst (state_after new_TextDecoder [] chunks))
                 (snd (state_after new_TextDecoder [] chunks)) more.
Proof.
  intros H. rewrite stream_callback_lines, (for_parts_open m _ H).
  rewrite stream_callback_chunks, state_after_text by apply no_lf_nil.
  unfold stream_callback. cbn [read_loop fst snd app].
  unfold complete_lines, stream_text in *.
  destruct (decode new_TextDecoder (concat chunks)) as [td t].
  cbn [fst snd] in *. unfold pop in *. cbn [fst] in *.
  now rewrite (for_parts_open m _ H).
Qed.

End Relay.

Lemma split_go_lf_join (s cur : jsstring) :
  join_lines (removelast (split_go [LF] 0 cur s))
  ++ last (split_go [LF] 0 cur s) []
  = rev cur ++ s.
Proof.
  revert cur; induction s as [|c s IH]; intros cur;
    [cbn; now rewrite app_nil_r|].
  rewrite split_go_lf_cons. destruct (Z.eqb_spec c LF) as [->|_].
  - pose proof (split_go_nonempty [LF] 0 [] s) as Hne.
    specialize (IH []). destruct (split_go [LF] 0 [] s) as [|p ps];
      [congruence|].
    cbn [removelast last]. unfold join_lines in *. cbn [map concat].
    rewrite <- !app_assoc. cbn [app]. f_equal. f_equal. exact IH.
  - rewrite IH. cbn [rev]. now rewrite <- app_assoc.
Qed.

(** X26.  Reassembly loses and adds nothing: the complete lines, each with
    its line feed, followed by what is kept in [buffer], are the text. *)
Theorem lines_and_buffer_are_the_text (text : jsstring) :
  join_lines (fst (pop (split [LF] text))) ++ snd (pop (split [LF] text))
  = text.
Proof. apply split_go_lf_join. Qed.

Lemma relay_of_non_object_witness :
  relay gpt (text_of "12") = [Stringified (delta_chunk gpt None None)].
Proof.
  apply (relay_of_non_object gpt (text_of "12")
           (JNum (Finite false (3 * 2 ^ 51) (-49))));
    [reflexivity | discriminate].
Defined.

Lemma line_prefix_is_not_checked_witness :
  stream_callback gpt (graceful [bytes "data: {'message':'Hi'}|"])
  = stream_callback gpt (graceful [bytes "event={'message':'Hi'}|"]).
Proof.
  apply (line_prefix_is_not_checked gpt
           [bytes "data: {'message':'Hi'}|"]
           [bytes "event={'message':'Hi'}|"]).
  reflexivity.
Defined.

Lemma relay_resumes_from_state_witness :
  stream_callback gpt
    (Some (map Chunk open_stream ++ [Chunk (bytes "data: [DONE]|")]))
  = stream_callback gpt (graceful open_stream)
    ++ read_loop gpt (fst (state_after new_TextDecoder [] open_stream))
                 (snd (state_after new_TextDecoder [] open_stream))
                 [Chunk (bytes "data: [DONE]|")].
Proof.
  apply (relay_resumes_from_state gpt open_stream
           [Chunk (bytes "data: [DONE]|")]).
  vm_compute. repeat constructor. discriminate.
Defined.

End RelayProperties.

(** ** More on the aggregation *)

Module AggregationProperties.
Import Utf8 Json Bridge Spec Notions Inputs MoreInputs.
Import JsStringFacts BridgeFacts.

#[local] Arguments substring : simpl never.

Lemma framed_app (a b : list jsstring) :
  framed (a ++ b) = framed a ++ framed b.
Proof. unfold framed. now rewrite map_app, concat_app. Qed.

Lemma framed_one (f : jsstring) (frames : list jsstring) :
  framed (f :: frames) = f ++ LF :: LF :: framed frames.
Proof. unfold framed. cbn [map concat]. now rewrite <- app_assoc. Qed.

(** The parts of a text that starts with delimited frames. *)
Lemma split_blank_frames (frames : list jsstring) (rest : jsstring) :
  Forall no_lf frames ->
  split [LF; LF] (framed frames ++ rest) = frames ++ split [LF; LF] rest.
Proof.
  induction 1 as [|f frames Hf _ IH]; [reflexivity|].
  rewrite framed_one, <- app_assoc. cbn [app].
  now rewrite split_blank_frame, IH.
Qed.

Lemma split_go_blank_no_lf (f cur : jsstring) :
  no_lf f -> split_go [LF; LF] 0 cur f = [rev cur ++ f].
Proof.
  revert cur; induction f as [|c f IH]; intros cur Hf.
  - cbn. now rewrite app_nil_r.
  - apply no_lf_cons in Hf as [Hc Hf]. cbn [split_go starts_with].
    replace (LF =? c) with false by (symmetry; apply Z.eqb_neq; congruence).
    cbn [andb]. rewrite IH by assumption. cbn [rev].
    now rewrite <- app_assoc.
Qed.

Lemma split_blank_no_lf (f : jsstring) :
  no_lf f -> split [LF; LF] f = [f].
Proof. intros Hf. unfold split. now rewrite split_go_blank_no_lf. Qed.

Lemma append_message_acc (acc : jsstring) (v : value) :
  append_message acc v
  = match append_message [] v with
    | Some s => Some (acc ++ s)
    | None => None
    end.
Proof.
  unfold append_message. destruct (get v (lit "message")) as [[c|]|];
    try reflexivity.
  destruct c; try reflexivity; now destruct (ToString _).
Qed.

(** The loop only appends to [responseContent]. *)
Lemma collect_acc (parts : list jsstring) (acc : jsstring) :
  collect acc parts = acc ++ collect [] parts.
Proof.
  revert acc; induction parts as [|part parts IH]; intros acc;
    cbn [collect]; [now rewrite app_nil_r|].
  destruct (JsString.eqb (substring 6 part) DONE); [now rewrite app_nil_r|].
  destruct (JSON_parse (substring 6 part)) as [v|]; [|apply IH].
  rewrite append_message_acc. destruct (append_message [] v) as [s|];
    [|apply IH].
  rewrite IH, (IH s). cbn [app]. now rewrite app_assoc.
Qed.

Lemma collect_sentinel (before after : list jsstring) (s acc : jsstring) :
  sentinel_line s ->
  collect acc (before ++ s :: after) = collect acc before.
Proof.
  intros Hs. revert acc; induction before as [|part before IH]; intros acc.
  - cbn [app collect]. unfold sentinel_line in Hs. rewrite Hs.
    now rewrite eqb_refl.
  - cbn [app collect].
    destruct (JsString.eqb (substring 6 part) DONE); [reflexivity|].
    destruct (JSON_parse (substring 6 part)) as [v|]; [|apply IH].
    destruct (append_message acc v); apply IH.
Qed.

Lemma collect_malformed (a b : list jsstring) (bad acc : jsstring) :
  malformed bad ->
  collect acc (a ++ bad :: b) = collect acc (a ++ b).
Proof.
  intros [Hs Hp]. revert acc; induction a as [|part a IH]; intros acc.
  - cbn [app collect]. apply eqb_neq in Hs. now rewrite Hs, Hp.
  - cbn [app collect].
    destruct (JsString.eqb (substring 6 part) DONE); [reflexivity|].
    destruct (JSON_parse (substring 6 part)) as [v|]; [|apply IH].
    destruct (append_message acc v); apply IH.
Qed.

Lemma collect_blank (parts : list jsstring) (acc : jsstring) :
  collect acc (parts ++ [[]]) = collect acc parts.
Proof.
  rewrite <- (app_nil_r parts) at 2. apply collect_malformed.
  split; [discriminate | reflexivity].
Qed.

Lemma aggregate_framed (frames : list jsstring) :
  Forall no_lf frames -> aggregate (framed frames) = collect [] frames.
Proof.
  intros H. unfold aggregate. rewrite <- (app_nil_r (framed frames)).
  rewrite split_blank_frames by assumption. apply collect_blank.
Qed.

(** X27.  The aggregation stops at the first sentinel frame: whatever
    follows its delimiter in the body does not reach the content. *)
Theorem aggregation_stops_at_sentinel (before : list jsstring)
        (s rest : jsstring) :
  Forall no_lf before -> no_lf s -> sentinel_line s ->
  aggregate (framed before ++ s ++ LF :: LF :: rest)
  = aggregate (framed before).
Proof.
  intros Hb Hs Hd. rewrite aggregate_framed by assumption. unfold aggregate.
  rewrite split_blank_frames, split_blank_frame by assumption.
  now apply collect_sentinel.
Qed.

Lemma aggregation_stops_at_sentinel_witness :
  aggregate (framed [hel; lo] ++ done_frame ++ LF :: LF :: framed [hel])
  = aggregate (framed [hel; lo]).
Proof.
  apply (aggregation_stops_at_sentinel [hel; lo] done_frame (framed [hel]));
    try reflexivity;
    repeat constructor; vm_compute; intros H;
    repeat (destruct H as [H|H]; [discriminate H|]); exact H.
Defined.

(** X28.  A malformed frame among the frames of a body does not change the
    aggregated content. *)
Theorem aggregation_skips_malformed (a b : list jsstring) (bad : jsstring) :
  Forall no_lf a -> no_lf bad -> Forall no_lf b -> malformed bad ->
  aggregate (framed (a ++ bad :: b)) = aggregate (framed (a ++ b)).
Proof.
  intros Ha Hbad Hb Hm.
  rewrite !aggregate_framed
    by (apply Forall_app; split; [|try constructor]; assumption).
  now apply collect_malformed.
Qed.

Lemma aggregation_skips_malformed_witness :
  aggregate (framed ([hel] ++ broken :: [lo]))
  = aggregate (framed ([hel] ++ [lo])).
Proof.
  apply (aggregation_skips_malformed [hel] [lo] broken);
    try (split; [discriminate | reflexivity]);
    repeat constructor; vm_compute; intros H;
    repeat (destruct H as [H|H]; [discriminate H|]); exact H.
Defined.

Lemma collect_carried (f s acc : jsstring) (parts : list jsstring) :
  carries f s -> collect acc (f :: parts) = collect (acc ++ s) parts.
Proof.
  intros (ms & P & L). cbn [collect].
  destruct (JsString.eqb (substring 6 f) DONE) eqn:E.
  - apply eqb_eq in E. rewrite E, parse_DONE in P. discriminate.
  - rewrite P. unfold append_message. cbn [get]. now rewrite L.
Qed.

Lemma collect_all_carried (frames texts parts : list jsstring)
      (acc : jsstring) :
  Forall2 carries frames texts ->
  collect acc (frames ++ parts) = collect (acc ++ concat texts) parts.
Proof.
  intros H. revert acc; induction H as [|f s frames texts Hf _ IH];
    intros acc.
  - cbn. now rewrite app_nil_r.
  - cbn [app concat]. rewrite (collect_carried _ _ _ _ Hf), IH.
    now rewrite app_assoc.
Qed.

(** X29.  When every frame of the body carries a text, the aggregated
    content is these texts concatenated in the order of the frames. *)
Theorem aggregation_concatenates_texts (frames texts : list jsstring) :
  Forall no_lf frames -> Forall2 carries frames texts ->
  aggregate (framed frames) = concat texts.
Proof.
  intros Hf Hc. rewrite aggregate_framed by assumption.
  rewrite <- (app_nil_r frames), (collect_all_carried _ _ _ _ Hc).
  reflexivity.
Qed.

Lemma carries_hel : carries hel (lit "Hel").
Proof. exists [(lit "message", JStr (lit "Hel"))]. split; reflexivity. Defined.

Lemma carries_lo : carries lo (lit "lo").
Proof. exists [(lit "message", JStr (lit "lo"))]. split; reflexivity. Defined.

Lemma aggregation_concatenates_texts_witness :
  aggregate (framed [hel; lo]) = concat [lit "Hel"; lit "lo"].
Proof.
  apply (aggregation_concatenates_texts [hel; lo] [lit "Hel"; lit "lo"]).
  - repeat constructor; vm_compute; intros H;
      repeat (destruct H as [H|H]; [discriminate H|]); exact H.
  - repeat constructor; [exact carries_hel | exact carries_lo].
Defined.

(** X30.  The text after the last delimiter is aggregated like a frame,
    while the streaming path drops the text after the last line feed: a body
    whose last frame lacks its delimiter aggregates that frame's text. *)
Theorem aggregation_reads_last_part (frames texts : list jsstring)
        (f s : jsstring) :
  Forall no_lf frames -> Forall2 carries frames texts ->
  no_lf f -> carries f s ->
  aggregate (framed frames ++ f) = concat texts ++ s.
Proof.
  intros Hf Hc Hl Hs. unfold aggregate.
  rewrite split_blank_frames, split_blank_no_lf by assumption.
  rewrite (collect_all_carried _ _ _ _ Hc), (collect_carried _ _ _ _ Hs).
  reflexivity.
Qed.

Lemma aggregation_reads_last_part_witness :
  aggregate (framed [hel] ++ lo) = concat [lit "Hel"] ++ lit "lo".
Proof.
  apply (aggregation_reads_last_part [hel] [lit "Hel"] lo (lit "lo"));
    try exact carries_lo;
    try (repeat constructor; exact carries_hel);
    repeat constructor; vm_compute; intros H;
    repeat (destruct H as [H|H]; [discriminate H|]); exact H.
Defined.

End AggregationProperties.
